(** * mork-converter: the logical database builder and the field converters

    A shallow embedding of [ply/morkdb.py] (escape decoder, dictionary store,
    object stores, reference resolver, row/table/database builders) and of
    [_SignedInt32.convert] from [MorkDB/filters/conversions.py], followed by
    the properties checked against the specification.

    Python values are modelled as follows.
    - [str] (a Python 2 byte string) is [string]; one [ascii] is one byte.
    - [dict] keyed by strings is [gmap string _].
    - An exception is the [Raise] case of [result]; a method that mutates the
      database is a function [MorkDatabase -> result A * MorkDatabase], so the
      mutations done before an exception stay visible, as in Python.
    - [warnings.warn] only reports; it changes nothing in the database and is
      left out (the flags that trigger it are kept in the syntax tree). *)

From Stdlib Require Import ZArith Ascii String List Lia DecimalString.
From stdpp Require Import base option list gmap strings fin_maps.

Local Open Scope Z_scope.

(** ** Exceptions and results *)

Inductive exn : Type :=
| KeyError (key : string)
| AssertionError (msg : string)
| TypeError
| ValueError.

Inductive result (A : Type) : Type :=
| Ok (a : A)
| Raise (e : exn).
Arguments Ok {A} a.
Arguments Raise {A} e.

#[global] Instance result_ret : MRet result := fun _ a => Ok a.
#[global] Instance result_bind : MBind result := fun _ _ f r =>
  match r with
  | Ok a => f a
  | Raise e => Raise e
  end.

(** ** Characters and numbers *)

Definition bslash : ascii := ascii_of_nat 92.
Definition dollar : ascii := ascii_of_nat 36.
Definition rparen : ascii := ascii_of_nat 41.
Definition CR : ascii := ascii_of_nat 13.
Definition LF : ascii := ascii_of_nat 10.

Definition str1 (c : ascii) : string := String c EmptyString.

(** Value of one digit character, as [int] reads it in bases up to 36. *)
Definition digit_value (c : ascii) : option Z :=
  let n := Z.of_nat (nat_of_ascii c) in
  if (48 <=? n) && (n <=? 57) then Some (n - 48)
  else if (65 <=? n) && (n <=? 90) then Some (n - 55)
  else if (97 <=? n) && (n <=? 122) then Some (n - 87)
  else None.

Definition is_digit (base : Z) (c : ascii) : bool :=
  match digit_value c with
  | Some d => d <? base
  | None => false
  end.

(** The character class [[0-9a-fA-F]]. *)
Definition is_hex (c : ascii) : bool :=
  let n := nat_of_ascii c in
  (((48 <=? n) && (n <=? 57)) || ((97 <=? n) && (n <=? 102))
   || ((65 <=? n) && (n <=? 70)))%nat.

(** Python's whitespace, stripped by [int] on both sides. *)
Definition is_space (c : ascii) : bool :=
  let n := nat_of_ascii c in
  ((9 <=? n) && (n <=? 13))%nat || (n =? 32)%nat.

Fixpoint lstrip (s : string) : string :=
  match s with
  | String c s' => if is_space c then lstrip s' else s
  | EmptyString => EmptyString
  end.

Fixpoint all_space (s : string) : bool :=
  match s with
  | String c s' => is_space c && all_space s'
  | EmptyString => true
  end.

(** Digits of [int(_, base)], most significant first; trailing whitespace
    is allowed, anything else is a [ValueError] (here [None]). *)
Fixpoint int_digits (base : Z) (s : string) (acc : Z) : option Z :=
  match s with
  | EmptyString => Some acc
  | String c s' =>
      if is_digit base c
      then int_digits base s' (base * acc + default 0 (digit_value c))
      else if all_space s then Some acc else None
  end.

Definition int_body (base : Z) (s : string) : option Z :=
  match s with
  | String c _ => if is_digit base c then int_digits base s 0 else None
  | EmptyString => None
  end.

(** The optional prefix [0x], [0o] or [0b] of bases 16, 8 and 2. *)
Definition int_prefix (base : Z) (s : string) : string :=
  match s with
  | String c0 (String c1 s') =>
      let n := nat_of_ascii c1 in
      if Ascii.eqb c0 "0"
         && (((base =? 16) && ((n =? 120) || (n =? 88))%nat)
             || ((base =? 8) && ((n =? 111) || (n =? 79))%nat)
             || ((base =? 2) && ((n =? 98) || (n =? 66))%nat))
      then match s' with
           | String c2 _ => if is_digit base c2 then s' else s
           | EmptyString => s
           end
      else s
  | _ => s
  end.

(** [int(value, base)] for an explicit base from 2 to 36 (the program only
    uses 10 and 16): optional whitespace, optional sign, optional prefix, at
    least one digit; a [ValueError] otherwise. *)
Definition int_ (value : string) (base : Z) : result Z :=
  if (base <? 2) || (36 <? base) then Raise ValueError else
  let s := lstrip value in
  let '(neg, s) :=
    match s with
    | String c s' =>
        if Ascii.eqb c "-" then (true, s')
        else if Ascii.eqb c "+" then (false, s')
        else (false, s)
    | EmptyString => (false, s)
    end in
  match int_body base (int_prefix base s) with
  | Some n => Ok (if neg then - n else n)
  | None => Raise ValueError
  end.

(** [chr(i)]: a one-character string for [0 <= i < 256]. *)
Definition chr (i : Z) : result string :=
  if (0 <=? i) && (i <? 256) then Ok (str1 (ascii_of_nat (Z.to_nat i)))
  else Raise ValueError.

(** ['%X' % i] for [i >= 0]: upper-case hexadecimal, no padding. *)
Definition hex_digit_upper (d : N) : ascii :=
  match String.get (N.to_nat d) "0123456789ABCDEF" with
  | Some c => c
  | None => "0"%char
  end.

Fixpoint fmtX_aux (fuel : nat) (n : N) (acc : string) : string :=
  match fuel with
  | O => acc
  | S fuel' =>
      let acc' := String (hex_digit_upper (n mod 16)%N) acc in
      if (n / 16 =? 0)%N then acc' else fmtX_aux fuel' (n / 16)%N acc'
  end.

Definition fmtX (n : N) : string :=
  fmtX_aux (S (N.to_nat (N.log2 n))) n EmptyString.

(** [unicode(ival)]: the decimal numeral, with a minus sign when negative. *)
Definition unicode (ival : Z) : string :=
  NilZero.string_of_int (Z.to_int ival).

(** ** Escape decoder *)

(** [_unescapeMap] *)
Definition _unescapeMap : gmap string string :=
  <[String bslash (str1 LF) := EmptyString]>
  (<[String bslash (String CR (str1 LF)) := EmptyString]>
  (<[String bslash (str1 dollar) := str1 dollar]>
  (<[String bslash (str1 bslash) := str1 bslash]>
  (<[String bslash (str1 rparen) := str1 rparen]> ∅)))).

(** [_translateEscape], applied to the matched text. *)
Definition _translateEscape (text : string) : result string :=
  match text with
  | String c text1 =>
      if Ascii.eqb c dollar then i ← int_ text1 16; chr i
      else match _unescapeMap !! text with
           | Some s => Ok s
           | None => Raise (KeyError text)
           end
  | EmptyString =>
      match _unescapeMap !! text with
      | Some s => Ok s
      | None => Raise (KeyError text)
      end
  end.

(** The regular expression [\$[0-9a-fA-F]{2}|\\\r\n|\\.] with [re.DOTALL],
    tried at the head of the input: the matched text and what follows it. *)
Definition _escape_match (s : string) : option (string * string) :=
  match s with
  | String c0 (String c1 rest1) =>
      match rest1 with
      | String c2 rest2 =>
          if Ascii.eqb c0 dollar && is_hex c1 && is_hex c2
          then Some (String c0 (String c1 (str1 c2)), rest2)
          else if Ascii.eqb c0 bslash && Ascii.eqb c1 CR && Ascii.eqb c2 LF
          then Some (String c0 (String c1 (str1 c2)), rest2)
          else if Ascii.eqb c0 bslash then Some (String c0 (str1 c1), rest1)
          else None
      | EmptyString =>
          if Ascii.eqb c0 bslash then Some (String c0 (str1 c1), rest1)
          else None
      end
  | _ => None
  end.

(** [_escape.sub(_translateEscape, value)]: scan left to right; where the
    expression matches, the match is replaced by the callback's result and
    the scan resumes after it; elsewhere one character is copied. The three
    alternatives of the expression are tried in order at each position (see
    [unescape_match] and [unescape_no_match] for the reading through
    [_escape_match]). *)
Fixpoint _unescape (value : string) : result string :=
  match value with
  | EmptyString => Ok EmptyString
  | String c0 rest0 =>
      match rest0 with
      | String c1 (String c2 rest2 as rest1) =>
          if Ascii.eqb c0 dollar && is_hex c1 && is_hex c2 then
            repl ← _translateEscape (String c0 (String c1 (str1 c2)));
            out ← _unescape rest2;
            Ok (repl +:+ out)
          else if Ascii.eqb c0 bslash && Ascii.eqb c1 CR && Ascii.eqb c2 LF then
            repl ← _translateEscape (String c0 (String c1 (str1 c2)));
            out ← _unescape rest2;
            Ok (repl +:+ out)
          else if Ascii.eqb c0 bslash then
            repl ← _translateEscape (String c0 (str1 c1));
            out ← _unescape rest1;
            Ok (repl +:+ out)
          else
            out ← _unescape rest0;
            Ok (String c0 out)
      | String c1 (EmptyString as rest1) =>
          if Ascii.eqb c0 bslash then
            repl ← _translateEscape (String c0 (str1 c1));
            out ← _unescape rest1;
            Ok (repl +:+ out)
          else
            out ← _unescape rest0;
            Ok (String c0 out)
      | EmptyString =>
          out ← _unescape rest0;
          Ok (String c0 out)
      end
  end.

(** ** Syntax tree *)

Module morkast.

(** Modelled from the spec: the node classes of [morkast] (the grammar's
    output) are not part of the sources; section 6 of the specification lists
    their fields, and the builder below fixes their names. An identifier has
    a raw id and a scope that is absent, a literal namespace, or a symbolic
    reference; a reference wraps the identifier it points to. *)
Inductive ObjectId : Type :=
| mkObjectId (objectid : string) (scope : Scope)
with Scope : Type :=
| ScopeNone
| ScopeName (name : string)
| ScopeRef (ref : ObjectRef)
with ObjectRef : Type :=
| mkObjectRef (obj : ObjectId).

(** A cell's column or value: literal text or a symbolic reference. *)
Inductive Atom : Type :=
| Literal (text : string)
| Reference (ref : ObjectRef).

Record Cell : Type := mkCell {
  Cell_column : Atom;
  Cell_value : Atom;
  Cell_cut : bool
}.

(** A meta-dict is a sequence of cells; [Dict_meta] is the list of the
    meta-dicts of one Dict item. *)
Record Dict : Type := mkDict {
  Dict_cells : list Cell;
  Dict_meta : list (list Cell)
}.

Record Row : Type := mkRow {
  Row_rowid : ObjectId;
  Row_cells : list Cell;
  Row_trunc : bool;
  Row_cut : bool;
  Row_meta : bool
}.

(** An entry of a table body: a bare row identifier or an inline row. *)
Inductive TableItem : Type :=
| ItemObjectId (row : ObjectId)
| ItemRow (row : Row).

Record Table : Type := mkTable {
  Table_tableid : ObjectId;
  Table_rows : list TableItem;
  Table_trunc : bool;
  Table_meta : bool
}.

(** A top-level item; [OtherItem] is any class without a builder. *)
Inductive Item : Type :=
| DictItem (d : Dict)
| RowItem (r : Row)
| TableItem_ (t : Table)
| OtherItem.

Record Database : Type := mkDatabase {
  Database_items : list Item
}.

End morkast.
Import morkast.

(** ** Dictionaries, stores and the database *)

(** [_MorkDict.__init__]: the table of ['%X' % i] to [chr(i)], [i < 0x80]. *)
Definition _MorkDict_init : gmap string string :=
  foldl (fun self i => <[fmtX (N.of_nat i) := str1 (ascii_of_nat i)]> self)
        ∅ (seq 0 128).

(** [_MorkStore]: [{ namespace: { id: object } }]. *)
Definition _MorkStore_getitem {V} (_store : gmap string (gmap string V))
    (key : string * string) : result V :=
  let '(namespace, oid) := key in
  match _store !! namespace with
  | None => Raise (KeyError namespace)
  | Some objs =>
      match objs !! oid with
      | None => Raise (KeyError oid)
      | Some v => Ok v
      end
  end.

Definition _MorkStore_setitem {V} (_store : gmap string (gmap string V))
    (key : string * string) (value : V) : gmap string (gmap string V) :=
  let '(namespace, oid) := key in
  <[namespace := <[oid := value]> (default ∅ (_store !! namespace))]> _store.

(** [_MorkTable]: the rows in body order. A table holds the row objects
    themselves; the builder never changes a row after storing it, so the
    row's content at the time of the reference stands for the object. *)
Record _MorkTable : Type := mk_MorkTable {
  _rows : list (gmap string string)
}.

Record MorkDatabase : Type := mkMorkDatabase {
  dicts : gmap string (gmap string string);
  tables : gmap string (gmap string _MorkTable);
  rows : gmap string (gmap string (gmap string string))
}.

(** [MorkDatabase.__init__] *)
Definition MorkDatabase_init : MorkDatabase :=
  {| dicts := <["c" := _MorkDict_init]> (<["a" := _MorkDict_init]> ∅);
     tables := ∅;
     rows := ∅ |}.

(** [self.dicts[namespace][oid]] *)
Definition dicts_getitem (self : MorkDatabase) (namespace oid : string)
    : result string :=
  match dicts self !! namespace with
  | None => Raise (KeyError namespace)
  | Some d =>
      match d !! oid with
      | None => Raise (KeyError oid)
      | Some v => Ok v
      end
  end.

(** ** Reference resolver *)

(** [_dissectId] and [_dictDeref] call each other along the syntax tree. *)
Fixpoint _dissectId (self : MorkDatabase) (oid : ObjectId)
    : result (string * option string) :=
  match oid with
  | mkObjectId objectid scope =>
      match scope with
      | ScopeRef namespace =>
          namespace ← _dictDeref self namespace "c";
          Ok (objectid, Some namespace)
      | ScopeName namespace => Ok (objectid, Some namespace)
      | ScopeNone => Ok (objectid, None)
      end
  end
with _dictDeref (self : MorkDatabase) (objref : ObjectRef)
    (defaultNamespace : string) : result string :=
  match objref with
  | mkObjectRef obj =>
      '(oid, namespace) ← _dissectId self obj;
      let namespace := default defaultNamespace namespace in
      dicts_getitem self namespace oid
  end.

(** [_inflateCell] *)
Definition _inflateCell (self : MorkDatabase) (cell : Cell)
    : result (string * string) :=
  column ← match Cell_column cell with
           | Reference column => _dictDeref self column "c"
           | Literal column => Ok column
           end;
  value ← match Cell_value cell with
          | Reference value => _dictDeref self value "a"
          | Literal value => _unescape value
          end;
  Ok (column, value).

(** ** Builders

    A builder receives the database and mutates it; [M A] threads the
    database through and keeps it when an exception is raised. *)

Definition M (A : Type) : Type := MorkDatabase → result A * MorkDatabase.

#[global] Instance M_ret : MRet M := fun _ a db => (Ok a, db).
#[global] Instance M_bind : MBind M := fun _ _ f m db =>
  match m db with
  | (Ok a, db') => f a db'
  | (Raise e, db') => (Raise e, db')
  end.

Definition raise {A} (e : exn) : M A := fun db => (Raise e, db).
Definition read {A} (f : MorkDatabase → result A) : M A := fun db => (f db, db).
Definition modify (f : MorkDatabase → MorkDatabase) : M unit :=
  fun db => (Ok tt, f db).

Definition set_dicts (f : gmap string (gmap string string) → gmap string (gmap string string))
    (db : MorkDatabase) : MorkDatabase :=
  {| dicts := f (dicts db); tables := tables db; rows := rows db |}.
Definition set_tables (f : gmap string (gmap string _MorkTable) → gmap string (gmap string _MorkTable))
    (db : MorkDatabase) : MorkDatabase :=
  {| dicts := dicts db; tables := f (tables db); rows := rows db |}.
Definition set_rows (f : gmap string (gmap string (gmap string string)) → gmap string (gmap string (gmap string string)))
    (db : MorkDatabase) : MorkDatabase :=
  {| dicts := dicts db; tables := tables db; rows := f (rows db) |}.

(** *** [_MorkDict.fromAst] *)

(** The loop over [ast.cells]. [_unescape] of a value that is not a string
    is a [TypeError]. A column that is a reference node is a key no string
    equals, so no lookup of the builder (all are by strings) can see its
    entry: the string-keyed table is left as it is. *)
Fixpoint dict_cells (cs : list Cell) (cells : gmap string string)
    : result (gmap string string) :=
  match cs with
  | [] => Ok cells
  | cell :: cs' =>
      value ← match Cell_value cell with
              | Literal value => _unescape value
              | Reference _ => Raise TypeError
              end;
      dict_cells cs'
        match Cell_column cell with
        | Literal column => <[column := value]> cells
        | Reference _ => cells
        end
  end.

(** The loop over [ast.meta[0].cells]: the value of the first cell whose
    column is ['a'], else the namespace found so far. *)
Fixpoint meta_namespace (cs : list Cell) (namespace : Atom) : Atom :=
  match cs with
  | [] => namespace
  | cell :: cs' =>
      match Cell_column cell with
      | Literal column =>
          if String.eqb column "a" then Cell_value cell
          else meta_namespace cs' namespace
      | Reference _ => meta_namespace cs' namespace
      end
  end.

Definition _MorkDict_fromAst (ast : Dict) : M unit :=
  cells ← read (fun _ => dict_cells (Dict_cells ast) _MorkDict_init);
  if (1 <? length (Dict_meta ast))%nat
  then raise (AssertionError "multiple meta-dicts")
  else
    let namespace :=
      match Dict_meta ast with
      | meta0 :: _ => meta_namespace meta0 (Literal "a")
      | [] => Literal "a"
      end in
    match namespace with
    | Literal namespace =>
        modify (set_dicts (fun dicts =>
          match dicts !! namespace with
          | None => <[namespace := cells]> dicts
          | Some existing => <[namespace := cells ∪ existing]> dicts
          end))
    | Reference _ =>
        (* a namespace that is a reference node: a key no string equals *)
        mret tt
    end.

(** *** [_MorkRow.fromAst] *)

(** The loop over [ast.cells]. *)
Fixpoint row_cells (db : MorkDatabase) (cs : list Cell)
    (self : gmap string string) : result (gmap string string) :=
  match cs with
  | [] => Ok self
  | cell :: cs' =>
      '(column, value) ← _inflateCell db cell;
      row_cells db cs' (<[column := value]> self)
  end.

Definition _MorkRow_fromAst (ast : Row) (defaultNamespace : option string)
    : M (gmap string string) :=
  self ← read (fun db => row_cells db (Row_cells ast) ∅);
  '(oid, namespace) ← read (fun db => _dissectId db (Row_rowid ast));
  let namespace :=
    match namespace with
    | None => defaultNamespace
    | Some _ => namespace
    end in
  match namespace with
  | None => raise (AssertionError "no namespace found for row")
  | Some namespace =>
      modify (set_rows (fun rows => _MorkStore_setitem rows (namespace, oid) self));;
      mret self
  end.

(** *** [_MorkTable.fromAst] *)

(** The loop over [ast.rows], appending to [rows]. *)
Fixpoint table_rows (namespace : string) (items : list TableItem)
    (rows_ : list (gmap string string)) : M (list (gmap string string)) :=
  match items with
  | [] => mret rows_
  | row :: items' =>
      newRow ← match row with
               | ItemObjectId row =>
                   '(rowId, rowNamespace) ← read (fun db => _dissectId db row);
                   let rowNamespace := default namespace rowNamespace in
                   read (fun db => _MorkStore_getitem (rows db) (rowNamespace, rowId))
               | ItemRow row => _MorkRow_fromAst row (Some namespace)
               end;
      table_rows namespace items' (rows_ ++ [newRow])
  end.

Definition _MorkTable_fromAst (ast : Table) : M _MorkTable :=
  '(oid, namespace) ← read (fun db => _dissectId db (Table_tableid ast));
  match namespace with
  | None => raise (AssertionError "no namespace found for table")
  | Some namespace =>
      rows_ ← table_rows namespace (Table_rows ast) [];
      let self := mk_MorkTable rows_ in
      modify (set_tables (fun tables => _MorkStore_setitem tables (namespace, oid) self));;
      mret self
  end.

(** *** [MorkDatabase.fromAst] *)

(** [_builder], applied to one item; an item of another class is skipped. *)
Definition build_item (item : Item) : M unit :=
  match item with
  | DictItem d => _MorkDict_fromAst d
  | RowItem r => _MorkRow_fromAst r None;; mret tt
  | TableItem_ t => _MorkTable_fromAst t;; mret tt
  | OtherItem => mret tt
  end.

Fixpoint build_items (items : list Item) : M unit :=
  match items with
  | [] => mret tt
  | item :: items' => build_item item;; build_items items'
  end.

Definition MorkDatabase_fromAst (ast : Database) : result MorkDatabase :=
  match build_items (Database_items ast) MorkDatabase_init with
  | (Ok _, self) => Ok self
  | (Raise e, _) => Raise e
  end.

(** ** Field converters ([MorkDB/filters/conversions.py]) *)

Module conversions.

(** The options read by the converters ([optparse] values). *)
Record Options : Type := mkOptions {
  no_convert : bool;
  no_time : bool;
  time_format : string;
  no_base : bool;
  no_symbolic : bool
}.

(** [_Int]: a converter with a base. *)
Record _Int : Type := mk_Int { _base : Z }.

Definition _to_int (self : _Int) (value : string) : result Z :=
  int_ value (_base self).

Definition _Int_convert (self : _Int) (opts : Options) (value : string)
    : result string :=
  if no_base opts then Ok value
  else ival ← _to_int self value; Ok (unicode ival).

(** [_SignedInt32.convert] *)
Definition _SignedInt32_convert (self : _Int) (opts : Options)
    (value : string) : result string :=
  if no_base opts then Ok value
  else
    ival ← _to_int self value;
    if 0xffffffff <? ival
    then Raise (AssertionError "integer too large for 32 bits")
    else
      let ival := if 0x7fffffff <? ival then ival - 0x100000000 else ival in
      Ok (unicode ival).

Definition _signed_int32_converter : _Int := mk_Int 16.

Definition _hex_int_converter : _Int := mk_Int 16.

(** [sep.join(l)] *)
Fixpoint join (sep : string) (l : list string) : string :=
  match l with
  | [] => EmptyString
  | [x] => x
  | x :: l' => x +:+ sep +:+ join sep l'
  end.

(** [_Flags]: an [_Int] with the flag names by bit position ([None] or an
    empty name marks a bit without a name) and the text for no flag. *)
Record _Flags : Type := mk_Flags {
  _Flags_Int : _Int;
  _empty : string;
  _values : list (option string)
}.

(** [_Flags.__init__(values, empty=u'', base=16)] *)
Definition _Flags_init (values : list (option string)) (empty : string)
    (base : Z) : _Flags :=
  mk_Flags (mk_Int base) empty values.

(** The loop of [_get_flags] from position [i] on; the second component is
    what is left of [ival], which the code only reports in a warning. *)
Fixpoint _get_flags_loop (i : Z) (values : list (option string)) (ival : Z)
    (result : list string) : list string * Z :=
  match values with
  | [] => (result, ival)
  | flag :: values' =>
      match flag with
      | None => _get_flags_loop (i + 1) values' ival result
      | Some name =>
          if String.eqb name EmptyString
          then _get_flags_loop (i + 1) values' ival result
          else
            let fval := Z.shiftl 1 i in
            if negb (Z.land fval ival =? 0)
            then _get_flags_loop (i + 1) values' (ival - fval) (result ++ [name])
            else _get_flags_loop (i + 1) values' ival result
      end
  end.

(** [_Flags._get_flags] *)
Definition _get_flags (self : _Flags) (opts : Options) (ival : Z)
    : list string :=
  (_get_flags_loop 0 (_values self) ival []).1.

(** [_Flags.convert] *)
Definition _Flags_convert (self : _Flags) (opts : Options) (value : string)
    : result string :=
  if no_symbolic opts then Ok value
  else
    ival ← _to_int (_Flags_Int self) value;
    let flags := _get_flags self opts ival in
    match flags with
    | _ :: _ => Ok (join " " flags)
    | [] => Ok (_empty self)
    end.

(** [_MsgFlags._flag_vals] and [_MsgFlags._priority_labels] *)
Definition _MsgFlags_flag_vals : list (option string) :=
  [Some "Read"; Some "Replied"; Some "Marked"; Some "Expunged"; Some "HasRe";
   Some "Elided"; None; Some "Offline"; Some "Watched"; Some "SenderAuthed";
   Some "Partial"; Some "Queued"; Some "Forwarded"; None; None; None;
   Some "New"; None; Some "Ignored"; None; None; Some "IMAPDeleted";
   Some "MDNReportNeeded"; Some "MDNReportSent"; Some "Template";
   None; None; None; Some "Attachment"].

Definition _priority_labels : list string :=
  ["notSet"; "none"; "lowest"; "low"; "normal"; "high"; "highest"].

(** [_MsgFlags.__init__] *)
Definition _msg_flags_converter : _Flags :=
  _Flags_init _MsgFlags_flag_vals EmptyString 16.

(** [_MsgFlags.convert] *)
Definition _MsgFlags_convert (self : _Flags) (opts : Options)
    (value : string) : result string :=
  if no_symbolic opts then Ok value
  else
    ival ← _to_int (_Flags_Int self) value;
    let priorities := Z.land ival 0xE000 in
    let ival := ival - priorities in
    let priorities := Z.shiftr priorities 13 in
    if negb (priorities <? Z.of_nat (length _priority_labels))
    then Raise (AssertionError "invalid priority")
    else
      let labels := Z.land ival 0xE000000 in
      let ival := ival - labels in
      let labels := Z.shiftr labels 25 in
      let flags := _get_flags self opts ival in
      let flags :=
        if negb (priorities =? 0)
        then flags ++ ["Priorities:"
                       +:+ default EmptyString
                             (_priority_labels !! Z.to_nat priorities)]
        else flags in
      let flags :=
        if negb (labels =? 0)
        then flags ++ ["Labels:0x" +:+ fmtX (Z.to_N labels)]
        else flags in
      Ok (join " " flags).

(** [_ImapFlags._flag_vals] *)
Definition _ImapFlags_flag_vals : list (option string) :=
  [Some "kImapMsgSeenFlag"; Some "kImapMsgAnsweredFlag";
   Some "kImapMsgFlaggedFlag"; Some "kImapMsgDeletedFlag";
   Some "kImapMsgDraftFlag"; Some "kImapMsgRecentFlag";
   Some "kImapMsgForwardedFlag"; Some "kImapMsgMDNSentFlag";
   Some "kImapMsgCustomKeywordFlag"; None; None; None; None;
   Some "kImapMsgSupportMDNSentFlag"; Some "kImapMsgSupportForwardedFlag";
   Some "kImapMsgSupportUserFlag"].

(** [_ImapFlags.__init__] *)
Definition _imap_flags_converter : _Flags :=
  _Flags_init _ImapFlags_flag_vals "kNoImapMsgFlag" 16.

(** [_ImapFlags.convert] *)
Definition _ImapFlags_convert (self : _Flags) (opts : Options)
    (value : string) : result string :=
  if no_symbolic opts then Ok value
  else
    ival ← _to_int (_Flags_Int self) value;
    let labels := Z.land ival 0xE00 in
    let ival := ival - labels in
    let labels := Z.shiftr labels 9 in
    let flags := _get_flags self opts ival in
    let flags :=
      if negb (labels =? 0)
      then flags ++ ["Labels:0x" +:+ fmtX (Z.to_N labels)]
      else flags in
    Ok (join " " flags).

(** [_Enumeration]: an [_Int] with a map from numbers to names (a name may
    be [None]) and a default. *)
Record _Enumeration : Type := mk_Enumeration {
  _Enumeration_Int : _Int;
  _map : gmap Z (option string);
  _default : option string
}.

(** [dict(enumerate(values))] *)
Definition dict_enumerate (values : list (option string))
    : gmap Z (option string) :=
  list_to_map (imap (fun i v => (Z.of_nat i, v)) values).

(** [_Enumeration.__init__] for a list of values. *)
Definition _Enumeration_init (values : list (option string))
    (default : option string) (base : Z) : _Enumeration :=
  mk_Enumeration (mk_Int base) (dict_enumerate values) default.

(** [_Enumeration.convert] *)
Definition _Enumeration_convert (self : _Enumeration) (opts : Options)
    (value : string) : result string :=
  if no_symbolic opts then Ok value
  else
    result_ ← (if String.eqb value EmptyString then Ok (_default self)
               else
                 ival ← _to_int (_Enumeration_Int self) value;
                 Ok (default (_default self) (_map self !! ival)));
    match result_ with
    | None => Ok value
    | Some name => Ok name
    end.

(** [_BoolInt.__init__] *)
Definition _bool_int_converter : _Enumeration :=
  _Enumeration_init [Some "false"; Some "true"] None 16.

(** [_BoolAnyVal.convert] *)
Definition _BoolAnyVal_convert (opts : Options) (value : string)
    : result string :=
  if no_symbolic opts then Ok value else Ok "true".

End conversions.

Import conversions.

(** * Definitions used to state the properties *)

Definition all_ascii : list ascii := map ascii_of_nat (seq 0 256).

(** The byte written as the two hexadecimal digits [h1 h2]. *)
Definition byte_of_hex (h1 h2 : ascii) : ascii :=
  ascii_of_nat
    (Z.to_nat (16 * default 0 (digit_value h1) + default 0 (digit_value h2))).

(** Both next characters are hexadecimal digits. *)
Definition two_hex_ahead (rest : string) : bool :=
  match rest with
  | String h1 (String h2 _) => is_hex h1 && is_hex h2
  | _ => false
  end.

(** A string without a backslash and without a [$] followed by two
    hexadecimal digits. *)
Fixpoint escape_free (s : string) : bool :=
  match s with
  | EmptyString => true
  | String c rest =>
      negb (Ascii.eqb c bslash)
      && negb (Ascii.eqb c dollar && two_hex_ahead rest)
      && escape_free rest
  end.

Definition option_string_eqb (o : option string) (s : string) : bool :=
  match o with
  | Some s' => String.eqb s' s
  | None => false
  end.

Definition result_Z_eqb (r : result Z) (z : Z) : bool :=
  match r with
  | Ok z' => z' =? z
  | Raise _ => false
  end.

Definition lit (column value : string) : Cell :=
  mkCell (Literal column) (Literal value) false.

(** The namespace a Dict item names: ['a'] unless its meta-dict says
    otherwise. *)
Definition Dict_namespace (ast : Dict) : Atom :=
  match Dict_meta ast with
  | meta0 :: _ => meta_namespace meta0 (Literal "a")
  | [] => Literal "a"
  end.

Definition ref_to (alias : string) (scope : Scope) : ObjectRef :=
  mkObjectRef (mkObjectId alias scope).

(** The namespace a reference names, [defaultNamespace] when it carries
    none: a literal name, or what its own scope reference means (in
    dictionary [c] by default). *)
Definition ref_namespace (db : MorkDatabase) (defaultNamespace : string)
    (scope : Scope) : result string :=
  match scope with
  | ScopeNone => Ok defaultNamespace
  | ScopeName namespace => Ok namespace
  | ScopeRef ref => _dictDeref db ref "c"
  end.

(** How one side of a cell is resolved: a literal through [decode], a
    reference by a lookup of its alias in the namespace it names. *)
Definition resolve_atom (db : MorkDatabase) (defaultNamespace : string)
    (decode : string → result string) (a : Atom) : result string :=
  match a with
  | Literal text => decode text
  | Reference (mkObjectRef (mkObjectId alias scope)) =>
      namespace ← ref_namespace db defaultNamespace scope;
      dicts_getitem db namespace alias
  end.

(** The cell resolution of the specification, section 4.3, in its words:
    column and value are each escape-decoded when literal. *)
Definition inflateCell_spec (db : MorkDatabase) (cell : Cell)
    : result (string * string) :=
  column ← resolve_atom db "c" _unescape (Cell_column cell);
  value ← resolve_atom db "a" _unescape (Cell_value cell);
  Ok (column, value).

(** The database after a Dict item with meta cell [(a, c)] and cell
    [(5, history)]. *)
Definition db_history : MorkDatabase :=
  (_MorkDict_fromAst (mkDict [lit "5" "history"] [[lit "a" "c"]])
                     MorkDatabase_init).2.

(** A relation between the database before and after a builder ran holds
    for a builder when it holds of every run, ended normally or not. *)
Definition preserves (P : MorkDatabase → MorkDatabase → Prop) {A} (m : M A)
    : Prop :=
  ∀ db, P db (m db).2.

Definition same_stores (db db' : MorkDatabase) : Prop :=
  rows db' = rows db ∧ tables db' = tables db.

Definition same_dicts_tables (db db' : MorkDatabase) : Prop :=
  dicts db' = dicts db ∧ tables db' = tables db.

Definition same_dicts (db db' : MorkDatabase) : Prop :=
  dicts db' = dicts db.

(** The cells of a row, resolved in order. *)
Fixpoint inflate_all (db : MorkDatabase) (cs : list Cell)
    : result (list (string * string)) :=
  match cs with
  | [] => Ok []
  | cell :: cs' =>
      p ← _inflateCell db cell;
      ps ← inflate_all db cs';
      Ok (p :: ps)
  end.

(** The key a Row item resolves to: its namespace, else the default. *)
Definition row_key (db : MorkDatabase) (ast : Row)
    (defaultNamespace : option string) : option (string * string) :=
  match _dissectId db (Row_rowid ast) with
  | Ok (oid, Some namespace) => Some (namespace, oid)
  | Ok (oid, None) =>
      match defaultNamespace with
      | Some namespace => Some (namespace, oid)
      | None => None
      end
  | Raise _ => None
  end.

Definition insert_pair (m : gmap string string) (p : string * string)
    : gmap string string := <[p.1 := p.2]> m.

(** Row [1] of namespace [ns] with columns [a] and [b], then again with
    column [b] alone. *)
Definition row_ab : Row :=
  mkRow (mkObjectId "1" (ScopeName "ns")) [lit "a" "1"; lit "b" "2"]
        false false false.

Definition row_b : Row :=
  mkRow (mkObjectId "1" (ScopeName "ns")) [lit "b" "3"] false false false.

(** A table that lists only the bare row identifier [X], first in the file. *)
Definition table_X : Table :=
  mkTable (mkObjectId "1" (ScopeName "ns"))
          [ItemObjectId (mkObjectId "X" ScopeNone)] false false.

Definition default_options : Options :=
  {| no_convert := false; no_time := false; time_format := "%c";
     no_base := false; no_symbolic := false |}.

Definition no_base_options : Options :=
  {| no_convert := false; no_time := false; time_format := "%c";
     no_base := true; no_symbolic := false |}.

(** * Definitions used to state further properties *)

(** No backslash occurs in the string. *)
Fixpoint no_bslash (s : string) : bool :=
  match s with
  | EmptyString => true
  | String c rest => negb (Ascii.eqb c bslash) && no_bslash rest
  end.

(** A byte written as two upper-case hexadecimal digits. *)
Definition hex2 (b : ascii) : string :=
  let n := N.of_nat (nat_of_ascii b) in
  String (hex_digit_upper (n / 16)%N) (str1 (hex_digit_upper (n mod 16)%N)).

(** Every byte written in the three-character hexadecimal form. *)
Fixpoint hex_encode (t : string) : string :=
  match t with
  | EmptyString => EmptyString
  | String b rest => String dollar (hex2 b +:+ hex_encode rest)
  end.

(** The close-paren, the backslash and the dollar sign written after a
    backslash, every other byte as it is. *)
Fixpoint bslash_encode (t : string) : string :=
  match t with
  | EmptyString => EmptyString
  | String b rest =>
      if Ascii.eqb b rparen || Ascii.eqb b bslash || Ascii.eqb b dollar
      then String bslash (String b (bslash_encode rest))
      else String b (bslash_encode rest)
  end.

(** Induction along the syntax of identifiers, scopes and references. *)
Scheme ObjectId_mutind := Induction for ObjectId Sort Prop
  with Scope_mutind := Induction for Scope Sort Prop
  with ObjectRef_mutind := Induction for ObjectRef Sort Prop.

(** The pair is an entry of the pre-seeded table. *)
Definition preseeded_entry (kv : string * string) : bool :=
  existsb (fun i => String.eqb kv.1 (fmtX (N.of_nat i))
                    && String.eqb kv.2 (str1 (ascii_of_nat i)))
          (seq 0 128).

Definition is_OtherItem (item : Item) : bool :=
  match item with OtherItem => true | _ => false end.

Definition is_DictItem (item : Item) : bool :=
  match item with DictItem _ => true | _ => false end.

Definition is_RowItem (item : Item) : bool :=
  match item with RowItem _ => true | _ => false end.

Definition is_TableItem (item : Item) : bool :=
  match item with TableItem_ _ => true | _ => false end.

Definition is_ItemObjectId (item : TableItem) : bool :=
  match item with ItemObjectId _ => true | ItemRow _ => false end.

(** [_MorkRow.columnNames]: the keys of the row, in the dictionary's order. *)
Definition _MorkRow_columnNames (self : gmap string string) : list string :=
  (map_to_list self).*1.

(** [_MorkTable.columnNames]: the set of the columns of all rows. *)
Definition _MorkTable_columnNames (self : _MorkTable) : gset string :=
  foldl (fun columns row => columns ∪ list_to_set (_MorkRow_columnNames row))
        ∅ (_rows self).

(** [_MorkTable.addRow] *)
Definition _MorkTable_addRow (self : _MorkTable) (row : gmap string string)
    : _MorkTable :=
  mk_MorkTable (_rows self ++ [row]).

(** [_MorkTable.__init__] without rows. *)
Definition _MorkTable_init : _MorkTable := mk_MorkTable [].

Definition same_tables (db db' : MorkDatabase) : Prop :=
  tables db' = tables db.

Definition same_rows (db db' : MorkDatabase) : Prop :=
  rows db' = rows db.

(** The row a bare identifier of a table body stands for, in a table of
    namespace [ns]. *)
Definition referenced_row (db : MorkDatabase) (ns : string)
    (item : TableItem) (row : gmap string string) : Prop :=
  ∃ x rowId rowNamespace,
    item = ItemObjectId x
    ∧ _dissectId db x = Ok (rowId, rowNamespace)
    ∧ _MorkStore_getitem (rows db) (default ns rowNamespace, rowId) = Ok row.

(** The names, in bit order, of the bits of [ival] that are set and have
    a name, for names listed from bit position [i] on. *)
Fixpoint named_flags_from (i : Z) (values : list (option string)) (ival : Z)
    : list string :=
  match values with
  | [] => []
  | flag :: values' =>
      match flag with
      | Some name =>
          if negb (String.eqb name EmptyString) && Z.testbit ival i
          then [name]
          else []
      | None => []
      end ++ named_flags_from (i + 1) values' ival
  end.

Definition option_Z_eqb (o : option Z) (z : Z) : bool :=
  match o with
  | Some z' => z' =? z
  | None => false
  end.

(** What the digits of [hex_digit_upper] look like to [int]. *)
Definition hex_digit_ok (d : nat) : bool :=
  let c := hex_digit_upper (N.of_nat d) in
  is_digit 16 c
  && option_Z_eqb (digit_value c) (Z.of_nat d)
  && negb (is_space c)
  && negb (Ascii.eqb c "-") && negb (Ascii.eqb c "+")
  && negb (Nat.eqb (nat_of_ascii c) 120) && negb (Nat.eqb (nat_of_ascii c) 88).

(** * Properties *)

Lemma M_bind_run {A B} (m : M A) (f : A → M B) (db : MorkDatabase) :
  (m ≫= f) db
  = match m db with
    | (Ok a, db') => f a db'
    | (Raise e, db') => (Raise e, db')
    end.
Proof. reflexivity. Qed.

(** ** Characters *)

Lemma ascii_forall (P : ascii → bool) :
  forallb P all_ascii = true → ∀ c, P c = true.
Proof.
  intros HP c. rewrite forallb_forall in HP. apply HP.
  rewrite <- (ascii_nat_embedding c). unfold all_ascii.
  apply in_map, in_seq. pose proof (nat_ascii_bounded c). lia.
Qed.

Lemma ascii_forall2 (P : ascii → ascii → bool) :
  forallb (fun a => forallb (P a) all_ascii) all_ascii = true →
  ∀ a b, P a b = true.
Proof.
  intros HP a b.
  pose proof (ascii_forall (fun a => forallb (P a) all_ascii) HP a) as Ha.
  exact (ascii_forall (P a) Ha b).
Qed.

Lemma ascii_eqb_neq (a b : ascii) : a ≠ b → Ascii.eqb a b = false.
Proof. intros H. apply Ascii.eqb_neq, H. Qed.

Lemma is_hex_not_special (c : ascii) :
  is_hex c = true → Ascii.eqb c dollar = false ∧ Ascii.eqb c bslash = false.
Proof.
  intros Hc.
  assert (H : (if is_hex c
               then negb (Ascii.eqb c dollar) && negb (Ascii.eqb c bslash)
               else true) = true).
  { revert c Hc. intros c _. revert c. apply ascii_forall.
    vm_compute. reflexivity. }
  rewrite Hc in H. apply andb_true_iff in H as [H1 H2].
  split; apply negb_true_iff; assumption.
Qed.

Lemma translateEscape_hex (h1 h2 : ascii) :
  is_hex h1 = true → is_hex h2 = true →
  _translateEscape (String dollar (String h1 (str1 h2)))
  = Ok (str1 (byte_of_hex h1 h2)).
Proof.
  intros H1 H2.
  assert (H : (if is_hex h1 && is_hex h2
               then match _translateEscape (String dollar (String h1 (str1 h2))) with
                    | Ok s => String.eqb s (str1 (byte_of_hex h1 h2))
                    | Raise _ => false
                    end
               else true) = true).
  { revert h1 h2 H1 H2. intros h1 h2 _ _. revert h1 h2.
    apply (ascii_forall2 (fun h1 h2 =>
      if is_hex h1 && is_hex h2
      then match _translateEscape (String dollar (String h1 (str1 h2))) with
           | Ok s => String.eqb s (str1 (byte_of_hex h1 h2))
           | Raise _ => false
           end
      else true)).
    vm_compute. reflexivity. }
  rewrite H1, H2 in H. simpl andb in H. cbv iota in H.
  destruct (_translateEscape _) as [s|e]; [|discriminate].
  apply String.eqb_eq in H. congruence.
Qed.

(** *** The scan, read through the regular expression *)

Lemma unescape_match (value text rest : string) :
  _escape_match value = Some (text, rest) →
  _unescape value
  = repl ← _translateEscape text; out ← _unescape rest; Ok (repl +:+ out).
Proof.
  destruct value as [|c0 [|c1 [|c2 rest2]]]; cbn [_escape_match _unescape];
    try discriminate.
  - destruct (Ascii.eqb c0 bslash); [|discriminate].
    intros [= <- <-]. reflexivity.
  - destruct (Ascii.eqb c0 dollar && is_hex c1 && is_hex c2);
      [intros [= <- <-]; reflexivity|].
    destruct (Ascii.eqb c0 bslash && Ascii.eqb c1 CR && Ascii.eqb c2 LF);
      [intros [= <- <-]; reflexivity|].
    destruct (Ascii.eqb c0 bslash); [|discriminate].
    intros [= <- <-]. reflexivity.
Qed.

Lemma unescape_no_match (c : ascii) (rest : string) :
  _escape_match (String c rest) = None →
  _unescape (String c rest) = out ← _unescape rest; Ok (String c out).
Proof.
  destruct rest as [|c1 [|c2 rest2]]; cbn [_escape_match _unescape].
  - reflexivity.
  - destruct (Ascii.eqb c bslash); [discriminate|reflexivity].
  - destruct (Ascii.eqb c dollar && is_hex c1 && is_hex c2); [discriminate|].
    destruct (Ascii.eqb c bslash && Ascii.eqb c1 CR && Ascii.eqb c2 LF);
      [discriminate|].
    destruct (Ascii.eqb c bslash); [discriminate|reflexivity].
Qed.

Lemma escape_match_dollar_plain (rest : string) :
  two_hex_ahead rest = false → _escape_match (String dollar rest) = None.
Proof.
  destruct rest as [|c1 [|c2 rest2]]; cbn [_escape_match two_hex_ahead];
    intros H; try reflexivity.
  change (Ascii.eqb dollar dollar) with true.
  change (Ascii.eqb dollar bslash) with false.
  cbn [andb]. rewrite H. reflexivity.
Qed.

Lemma escape_match_dollar_hex (h1 h2 : ascii) (rest : string) :
  is_hex h1 = true → is_hex h2 = true →
  _escape_match (String dollar (String h1 (String h2 rest)))
  = Some (String dollar (String h1 (str1 h2)), rest).
Proof.
  intros H1 H2. cbn [_escape_match].
  change (Ascii.eqb dollar dollar) with true. rewrite H1, H2. reflexivity.
Qed.

Lemma escape_match_other (c : ascii) (rest : string) :
  c ≠ dollar → c ≠ bslash → _escape_match (String c rest) = None.
Proof.
  intros Hd Hb. apply ascii_eqb_neq in Hd, Hb.
  destruct rest as [|c1 [|c2 rest2]]; cbn [_escape_match];
    rewrite ?Hd, ?Hb; reflexivity.
Qed.

Lemma unescape_escape_free (s : string) :
  escape_free s = true → _unescape s = Ok s.
Proof.
  induction s as [|c rest IH]; [reflexivity|].
  cbn [escape_free]. intros H.
  apply andb_true_iff in H as [H Hrest].
  apply andb_true_iff in H as [Hb Hd].
  apply negb_true_iff in Hb, Hd.
  rewrite unescape_no_match, (IH Hrest); [reflexivity|].
  destruct (Ascii.eqb c dollar) eqn:Hc.
  - apply Ascii.eqb_eq in Hc. subst c.
    apply escape_match_dollar_plain. exact Hd.
  - apply escape_match_other.
    + intros ->. discriminate Hc.
    + intros ->. discriminate Hb.
Qed.

(** *** Backslash escapes *)

Lemma escape_match_bslash (x : ascii) (rest : string) :
  (∀ rest', ¬ (x = CR ∧ rest = String LF rest')) →
  _escape_match (String bslash (String x rest))
  = Some (String bslash (str1 x), rest).
Proof.
  intros Hnot. destruct rest as [|c2 rest2]; cbn [_escape_match].
  - reflexivity.
  - change (Ascii.eqb bslash dollar) with false.
    change (Ascii.eqb bslash bslash) with true. cbn [andb].
    destruct (Ascii.eqb x CR) eqn:Hx; [|reflexivity].
    destruct (Ascii.eqb c2 LF) eqn:Hc; [|reflexivity].
    apply Ascii.eqb_eq in Hx, Hc. subst. destruct (Hnot rest2). split; reflexivity.
Qed.

Lemma unescapeMap_lookup_other (x : ascii) :
  x ≠ rparen → x ≠ bslash → x ≠ dollar → x ≠ LF →
  _unescapeMap !! String bslash (str1 x) = None.
Proof.
  intros H1 H2 H3 H4. unfold _unescapeMap, str1.
  rewrite !lookup_insert_ne; [apply lookup_empty|congruence..].
Qed.

Lemma translateEscape_other (x : ascii) :
  x ≠ rparen → x ≠ bslash → x ≠ dollar → x ≠ LF →
  _translateEscape (String bslash (str1 x))
  = Raise (KeyError (String bslash (str1 x))).
Proof.
  intros H1 H2 H3 H4. unfold _translateEscape, str1.
  change (Ascii.eqb bslash dollar) with false. cbv iota.
  fold (str1 x). rewrite unescapeMap_lookup_other by assumption. reflexivity.
Qed.

Lemma bind_emit (r : result string) (x : ascii) :
  (out ← r; Ok (str1 x +:+ out)) = (out ← r; Ok (String x out)).
Proof. destruct r; reflexivity. Qed.

Lemma bind_skip (r : result string) :
  (out ← r; Ok (EmptyString +:+ out)) = r.
Proof. destruct r; reflexivity. Qed.

(** C1, as the code has it: a backslash followed by a close-paren, a
    backslash or a dollar sign decodes to exactly that character; a backslash
    followed by carriage-return and newline, or by a newline, decodes to
    nothing; a backslash followed by any other character makes the decoder
    fail with the [KeyError] of the lookup in [_unescapeMap]. In each case
    the scan goes on with the rest of the input. *)
Theorem unescape_backslash (x : ascii) (rest : string) :
  (x = rparen ∨ x = bslash ∨ x = dollar →
     _unescape (String bslash (String x rest))
     = out ← _unescape rest; Ok (String x out))
  ∧ _unescape (String bslash (String CR (String LF rest))) = _unescape rest
  ∧ _unescape (String bslash (String LF rest)) = _unescape rest
  ∧ (x ≠ rparen → x ≠ bslash → x ≠ dollar → x ≠ LF →
     (∀ rest', ¬ (x = CR ∧ rest = String LF rest')) →
     _unescape (String bslash (String x rest))
     = Raise (KeyError (String bslash (str1 x)))).
Proof.
  repeat split.
  - intros Hx.
    rewrite (unescape_match _ (String bslash (str1 x)) rest).
    + assert (Ht : _translateEscape (String bslash (str1 x)) = Ok (str1 x))
        by (destruct Hx as [->|[->| ->]]; vm_compute; reflexivity).
      rewrite Ht. apply bind_emit.
    + apply escape_match_bslash. intros rest' [-> _].
      destruct Hx as [Hx|[Hx|Hx]]; discriminate Hx.
  - rewrite (unescape_match _ (String bslash (String CR (str1 LF))) rest)
      by reflexivity.
    change (_translateEscape (String bslash (String CR (str1 LF))))
      with (Ok EmptyString).
    apply bind_skip.
  - rewrite (unescape_match _ (String bslash (str1 LF)) rest).
    + change (_translateEscape (String bslash (str1 LF))) with (Ok EmptyString).
      apply bind_skip.
    + apply escape_match_bslash. intros rest' [H _]. discriminate H.
  - intros H1 H2 H3 H4 Hcr.
    rewrite (unescape_match _ (String bslash (str1 x)) rest)
      by (apply escape_match_bslash; exact Hcr).
    rewrite translateEscape_other by assumption. reflexivity.
Qed.

(** The escaped alias-reference marker decodes to the marker, and the two
    characters after it are then copied. *)
Lemma unescape_backslash_witness :
  _unescape (String bslash "$41") = Ok "$41"
  ∧ _unescape (String bslash "a") = Raise (KeyError (String bslash "a")).
Proof.
  split.
  - exact (proj1 (unescape_backslash dollar "41") (or_intror (or_intror eq_refl))).
  - apply (proj2 (proj2 (proj2 (unescape_backslash "a" EmptyString))));
      try discriminate.
    intros rest' [H _]. discriminate H.
Defined.

(** C1 as the specification words it fails: a backslash followed by a
    character outside the escape table is not decoded to that character. *)
Lemma unescape_unknown_escape_fails :
  _unescape (String bslash "a") = Raise (KeyError (String bslash "a"))
  ∧ _unescape (String bslash "a") ≠ Ok "a".
Proof. split; [vm_compute; reflexivity|vm_compute; discriminate]. Qed.

(** *** The hexadecimal form *)

(** C8: at every position of the scan, a [$] that is not followed by two
    hexadecimal digits is copied unchanged (also as the last character), the
    three characters [$] and two hexadecimal digits are replaced by the byte
    the digits write, and a character that is neither [$] nor a backslash is
    copied; so a string that holds no backslash and no such three-character
    form is returned as it is. In each case the scan goes on with the rest
    of the input, whose failure is the failure of the whole. *)
Theorem unescape_dollar :
  (∀ rest, two_hex_ahead rest = false →
     _unescape (String dollar rest)
     = out ← _unescape rest; Ok (String dollar out))
  ∧ _unescape (str1 dollar) = Ok (str1 dollar)
  ∧ (∀ h1 h2 rest, is_hex h1 = true → is_hex h2 = true →
       _unescape (String dollar (String h1 (String h2 rest)))
       = out ← _unescape rest; Ok (String (byte_of_hex h1 h2) out))
  ∧ (∀ c rest, c ≠ dollar → c ≠ bslash →
       _unescape (String c rest) = out ← _unescape rest; Ok (String c out))
  ∧ (∀ s, escape_free s = true → _unescape s = Ok s).
Proof.
  repeat split.
  - intros rest H. apply unescape_no_match, escape_match_dollar_plain, H.
  - intros h1 h2 rest H1 H2.
    rewrite (unescape_match _ _ _ (escape_match_dollar_hex h1 h2 rest H1 H2)).
    rewrite translateEscape_hex by assumption. apply bind_emit.
  - intros c rest Hd Hb. apply unescape_no_match, escape_match_other; assumption.
  - apply unescape_escape_free.
Qed.

Lemma unescape_dollar_witness :
  _unescape "$4g" = Ok "$4g"
  ∧ _unescape "$41$" = Ok "A$"
  ∧ _unescape "a$b$" = Ok "a$b$".
Proof.
  split; [|split].
  - exact (proj1 unescape_dollar "4g" eq_refl).
  - exact (proj1 (proj2 (proj2 unescape_dollar)) "4"%char "1"%char "$" eq_refl eq_refl).
  - exact (proj2 (proj2 (proj2 (proj2 unescape_dollar))) "a$b$" eq_refl).
Defined.

(** ** The pre-seeded dictionaries *)

Lemma MorkDict_init_lookup (i : nat) :
  (i < 128)%nat →
  _MorkDict_init !! fmtX (N.of_nat i) = Some (str1 (ascii_of_nat i))
  ∧ int_ (fmtX (N.of_nat i)) 16 = Ok (Z.of_nat i).
Proof.
  intros Hi.
  assert (H : forallb (fun i =>
                option_string_eqb (_MorkDict_init !! fmtX (N.of_nat i))
                                  (str1 (ascii_of_nat i))
                && result_Z_eqb (int_ (fmtX (N.of_nat i)) 16) (Z.of_nat i))
              (seq 0 128) = true) by (vm_compute; reflexivity).
  rewrite forallb_forall in H.
  assert (Hin : In i (seq 0 128)) by (apply in_seq; lia).
  apply H in Hin. apply andb_true_iff in Hin as [H1 H2].
  split.
  - destruct (_MorkDict_init !! _) as [s|]; [|discriminate].
    apply String.eqb_eq in H1. congruence.
  - destruct (int_ _ 16) as [z|]; [|discriminate].
    apply Z.eqb_eq in H2. congruence.
Qed.

Lemma MorkDatabase_init_dicts (ns : string) :
  ns = "a" ∨ ns = "c" → dicts MorkDatabase_init !! ns = Some _MorkDict_init.
Proof. intros [-> | ->]; reflexivity. Qed.

(** C3, as the code has it: before any Dict item is processed, namespaces
    [a] and [c] both exist and map the alias ['%X' % i] (upper-case
    hexadecimal without padding: [0] to [F], then [10] to [7F]) to the
    one-character string [chr(i)], for every [i] below [0x80]; read back as
    a hexadecimal number such an alias is [i], so the lookup returns
    [chr(int(alias, 16))]. *)
Theorem preseeded_identity (ns : string) (i : nat) :
  ns = "a" ∨ ns = "c" → (i < 128)%nat →
  dicts_getitem MorkDatabase_init ns (fmtX (N.of_nat i))
  = Ok (str1 (ascii_of_nat i))
  ∧ int_ (fmtX (N.of_nat i)) 16 = Ok (Z.of_nat i)
  ∧ chr (Z.of_nat i) = Ok (str1 (ascii_of_nat i)).
Proof.
  intros Hns Hi. destruct (MorkDict_init_lookup i Hi) as [Hl Hint].
  split; [|split].
  - unfold dicts_getitem. rewrite (MorkDatabase_init_dicts ns Hns), Hl.
    reflexivity.
  - exact Hint.
  - unfold chr. rewrite Nat2Z.id.
    replace ((0 <=? Z.of_nat i) && (Z.of_nat i <? 256)) with true; [reflexivity|].
    symmetry. apply andb_true_iff. split; [apply Z.leb_le|apply Z.ltb_lt]; lia.
Qed.

(** Alias [28] in namespace [a] is the character of code point [0x28]. *)
Lemma preseeded_identity_witness :
  dicts_getitem MorkDatabase_init "a" "28" = Ok "("
  ∧ int_ "28" 16 = Ok 40
  ∧ chr 40 = Ok "(".
Proof.
  apply (preseeded_identity "a" 40); [left; reflexivity|lia].
Defined.

(** C3 as the specification words it fails: [00] is a two-digit hexadecimal
    alias below [0x80], and it is not defined in the pre-seeded table. *)
Lemma preseeded_alias_00_missing :
  int_ "00" 16 = Ok 0
  ∧ dicts_getitem MorkDatabase_init "a" "00" = Raise (KeyError "00")
  ∧ dicts_getitem MorkDatabase_init "a" "00" ≠ (i ← int_ "00" 16; chr i).
Proof.
  split; [|split]; vm_compute; [reflexivity|reflexivity|discriminate].
Qed.

(** ** Dictionary overlay *)

(** C2 fails on the code: the table built for a Dict item starts from the
    pre-seeded identity table, and all of it is laid over the existing
    dictionary. After a first item defines alias [41] as [x] in namespace
    [a], a second item for [a] that only defines alias [80] sets [41] back to
    the character of code point [0x41]. *)
Theorem dict_overlay_resets_preseeded_alias :
  let item1 := mkDict [lit "41" "x"] [] in
  let item2 := mkDict [lit "80" "y"] [] in
  let db1 := (_MorkDict_fromAst item1 MorkDatabase_init).2 in
  let db2 := (_MorkDict_fromAst item2 db1).2 in
  (_MorkDict_fromAst item1 MorkDatabase_init).1 = Ok tt
  ∧ (_MorkDict_fromAst item2 db1).1 = Ok tt
  ∧ dicts_getitem db1 "a" "41" = Ok "x"
  ∧ dicts_getitem db2 "a" "80" = Ok "y"
  ∧ dicts_getitem db2 "a" "41" = Ok "A".
Proof. vm_compute. repeat split; reflexivity. Qed.

(** What the overlay does in general: the table of the item, which starts
    from the pre-seeded one, is laid over the existing dictionary. An alias
    the item's table lacks keeps its value; the aliases of the pre-seeded
    table are never among those. *)
Lemma dict_cells_keeps (cs : list Cell) (acc cells : gmap string string) :
  dict_cells cs acc = Ok cells →
  ∀ alias, is_Some (acc !! alias) → is_Some (cells !! alias).
Proof.
  revert acc. induction cs as [|cell cs IH]; intros acc; cbn [dict_cells].
  - intros [= <-]. auto.
  - destruct (match Cell_value cell with
              | Literal value => _unescape value
              | Reference _ => Raise TypeError
              end) as [value|e]; [|discriminate].
    cbn [mbind result_bind]. intros Hcs alias Hacc.
    apply (IH _ Hcs). destruct (Cell_column cell) as [column|]; [|exact Hacc].
    destruct (decide (column = alias)) as [->|Hne].
    + rewrite lookup_insert_eq. eauto.
    + rewrite lookup_insert_ne by exact Hne. exact Hacc.
Qed.

Lemma MorkDict_fromAst_run (ast : Dict) (db : MorkDatabase)
    (cells : gmap string string) (ns : string) :
  dict_cells (Dict_cells ast) _MorkDict_init = Ok cells →
  (length (Dict_meta ast) <= 1)%nat →
  Dict_namespace ast = Literal ns →
  _MorkDict_fromAst ast db
  = (Ok tt,
     set_dicts (fun dicts => <[ns := cells ∪ default ∅ (dicts !! ns)]> dicts) db).
Proof.
  intros Hcells Hmeta Hns. unfold _MorkDict_fromAst.
  rewrite M_bind_run. unfold read at 1. rewrite Hcells.
  destruct (Nat.ltb_spec 1 (length (Dict_meta ast))) as [?|_]; [lia|].
  fold (Dict_namespace ast). rewrite Hns. unfold modify, set_dicts.
  destruct (dicts db !! ns) as [existing|]; cbn [default].
  - reflexivity.
  - rewrite (right_id_L ∅ (∪)). reflexivity.
Qed.

Lemma dict_overlay (ast : Dict) (db : MorkDatabase)
    (cells existing : gmap string string) (ns : string) :
  dict_cells (Dict_cells ast) _MorkDict_init = Ok cells →
  (length (Dict_meta ast) <= 1)%nat →
  Dict_namespace ast = Literal ns →
  dicts db !! ns = Some existing →
  dicts (_MorkDict_fromAst ast db).2 !! ns = Some (cells ∪ existing)
  ∧ (∀ alias value, cells !! alias = Some value →
       (cells ∪ existing) !! alias = Some value)
  ∧ (∀ alias, cells !! alias = None →
       (cells ∪ existing) !! alias = existing !! alias)
  ∧ (∀ alias, is_Some (_MorkDict_init !! alias) → is_Some (cells !! alias)).
Proof.
  intros Hcells Hmeta Hns Hex.
  rewrite (MorkDict_fromAst_run ast db cells ns Hcells Hmeta Hns).
  cbn [snd dicts set_dicts]. rewrite Hex, lookup_insert_eq. cbn [default].
  repeat split.
  - intros alias value Hc. apply lookup_union_Some_l, Hc.
  - intros alias Hc. apply lookup_union_r, Hc.
  - apply (dict_cells_keeps _ _ _ Hcells).
Qed.

(** ** Reference resolver *)

Lemma dictDeref_lookup (db : MorkDatabase) (alias : string) (scope : Scope)
    (defaultNamespace : string) :
  _dictDeref db (ref_to alias scope) defaultNamespace
  = namespace ← ref_namespace db defaultNamespace scope;
    dicts_getitem db namespace alias.
Proof.
  destruct scope as [|namespace|ref]; cbn [ref_to _dictDeref _dissectId ref_namespace].
  - reflexivity.
  - reflexivity.
  - destruct (_dictDeref db ref "c"); reflexivity.
Qed.

(** C4, as the code has it: column and value are resolved independently;
    a literal value is escape-decoded, a literal column is taken as it is
    written (it is not escape-decoded); a reference column is looked up in
    namespace [c] and a reference value in namespace [a], unless the
    reference carries a namespace of its own; the result is the pair. *)
Theorem inflateCell_resolution (db : MorkDatabase) (cell : Cell) :
  _inflateCell db cell
  = column ← resolve_atom db "c" Ok (Cell_column cell);
    value ← resolve_atom db "a" _unescape (Cell_value cell);
    Ok (column, value).
Proof.
  destruct cell as [column value cut]. unfold _inflateCell. cbn [Cell_column Cell_value].
  assert (Hcol : match column with
                 | Reference column => _dictDeref db column "c"
                 | Literal column => Ok column
                 end = resolve_atom db "c" Ok column).
  { destruct column as [text|[[alias scope]]]; [reflexivity|].
    apply (dictDeref_lookup db alias scope "c"). }
  assert (Hval : match value with
                 | Reference value => _dictDeref db value "a"
                 | Literal value => _unescape value
                 end = resolve_atom db "a" _unescape value).
  { destruct value as [text|[[alias scope]]]; [reflexivity|].
    apply (dictDeref_lookup db alias scope "a"). }
  rewrite Hcol, Hval. reflexivity.
Qed.

(** C4 as the specification words it fails: a literal column that holds an
    escape sequence is not decoded, while the value is. *)
Lemma inflateCell_literal_column_not_decoded :
  _inflateCell MorkDatabase_init (lit "$41" "$41") = Ok ("$41", "A")
  ∧ inflateCell_spec MorkDatabase_init (lit "$41" "$41") = Ok ("A", "A")
  ∧ _inflateCell MorkDatabase_init (lit "$41" "$41")
    ≠ inflateCell_spec MorkDatabase_init (lit "$41" "$41").
Proof.
  split; [|split]; vm_compute; [reflexivity|reflexivity|discriminate].
Qed.

(** C5: the namespace of an identifier whose scope is a symbolic reference
    is the string found for the reference's alias in the Dictionary Store:
    in dictionary [c] when the reference carries no namespace, in the named
    dictionary when it carries a literal one, and in the dictionary its own
    scope reference resolves to otherwise; a failed lookup fails the
    resolution. With [5] meaning [history] in dictionary [c], the Row
    identifier [3] scoped by a reference to [5] is in namespace [history]. *)
Theorem dissectId_symbolic_scope (db : MorkDatabase) :
  (∀ raw alias scope,
     _dissectId db (mkObjectId raw (ScopeRef (ref_to alias scope)))
     = dictionary ← ref_namespace db "c" scope;
       namespace ← dicts_getitem db dictionary alias;
       Ok (raw, Some namespace))
  ∧ (∀ raw alias,
     _dissectId db (mkObjectId raw (ScopeRef (ref_to alias ScopeNone)))
     = namespace ← dicts_getitem db "c" alias; Ok (raw, Some namespace))
  ∧ (∀ c, dicts db !! "c" = Some c → c !! "5" = Some "history" →
     _dissectId db (mkObjectId "3" (ScopeRef (ref_to "5" ScopeNone)))
     = Ok ("3", Some "history")).
Proof.
  assert (H : ∀ raw alias scope,
     _dissectId db (mkObjectId raw (ScopeRef (ref_to alias scope)))
     = dictionary ← ref_namespace db "c" scope;
       namespace ← dicts_getitem db dictionary alias;
       Ok (raw, Some namespace)).
  { intros raw alias scope.
    change (_dissectId db (mkObjectId raw (ScopeRef (ref_to alias scope))))
      with (namespace ← _dictDeref db (ref_to alias scope) "c";
            Ok (raw, Some namespace)).
    rewrite dictDeref_lookup.
    destruct (ref_namespace db "c" scope); reflexivity. }
  split; [exact H|split].
  - intros raw alias. rewrite H. reflexivity.
  - intros c Hc H5. rewrite H. cbn [ref_namespace]. 
    unfold dicts_getitem, mbind, result_bind. rewrite Hc, H5. reflexivity.
Qed.

Lemma dissectId_symbolic_scope_witness :
  _dissectId db_history (mkObjectId "3" (ScopeRef (ref_to "5" ScopeNone)))
  = Ok ("3", Some "history").
Proof.
  refine (proj2 (proj2 (dissectId_symbolic_scope db_history))
            (default ∅ (dicts db_history !! "c")) _ _);
    vm_compute; reflexivity.
Defined.

(** ** Builders: what is written where *)

Section Preserves.

Variable P : MorkDatabase → MorkDatabase → Prop.
Hypothesis P_refl : ∀ db, P db db.
Hypothesis P_trans : ∀ db1 db2 db3, P db1 db2 → P db2 db3 → P db1 db3.

Lemma preserves_ret {A} (a : A) : preserves P (mret a).
Proof. intros db. apply P_refl. Qed.

Lemma preserves_raise {A} (e : exn) : preserves P (@raise A e).
Proof. intros db. apply P_refl. Qed.

Lemma preserves_read {A} (f : MorkDatabase → result A) :
  preserves P (read f).
Proof. intros db. apply P_refl. Qed.

Lemma preserves_modify (f : MorkDatabase → MorkDatabase) :
  (∀ db, P db (f db)) → preserves P (modify f).
Proof. intros Hf db. apply Hf. Qed.

Lemma preserves_bind {A B} (m : M A) (f : A → M B) :
  preserves P m → (∀ a, preserves P (f a)) → preserves P (m ≫= f).
Proof.
  intros Hm Hf db. rewrite M_bind_run.
  specialize (Hm db). destruct (m db) as [[a|e] db']; cbn [snd] in *.
  - apply (P_trans _ db'); [exact Hm|apply Hf].
  - exact Hm.
Qed.

End Preserves.

Lemma same_stores_trans db1 db2 db3 :
  same_stores db1 db2 → same_stores db2 db3 → same_stores db1 db3.
Proof. unfold same_stores. intros [? ?] [? ?]. split; congruence. Qed.

Lemma same_dicts_tables_trans db1 db2 db3 :
  same_dicts_tables db1 db2 → same_dicts_tables db2 db3 →
  same_dicts_tables db1 db3.
Proof. unfold same_dicts_tables. intros [? ?] [? ?]. split; congruence. Qed.

Lemma same_dicts_trans db1 db2 db3 :
  same_dicts db1 db2 → same_dicts db2 db3 → same_dicts db1 db3.
Proof. unfold same_dicts. congruence. Qed.

Lemma same_dicts_tables_same_dicts {A} (m : M A) :
  preserves same_dicts_tables m → preserves same_dicts m.
Proof. intros H db. apply H. Qed.

Lemma MorkDict_fromAst_frame (ast : Dict) :
  preserves same_stores (_MorkDict_fromAst ast).
Proof.
  unfold _MorkDict_fromAst.
  apply preserves_bind; [apply same_stores_trans|apply preserves_read; done|].
  intros cells. destruct (1 <? length (Dict_meta ast))%nat.
  - apply preserves_raise. done.
  - destruct (match Dict_meta ast with
              | [] => Literal "a"
              | meta0 :: _ => meta_namespace meta0 (Literal "a")
              end).
    + apply preserves_modify. done.
    + apply preserves_ret. done.
Qed.

Lemma MorkRow_fromAst_frame (ast : Row) (defaultNamespace : option string) :
  preserves same_dicts_tables (_MorkRow_fromAst ast defaultNamespace).
Proof.
  unfold _MorkRow_fromAst.
  apply preserves_bind;
    [apply same_dicts_tables_trans|apply preserves_read; done|].
  intros self.
  apply preserves_bind;
    [apply same_dicts_tables_trans|apply preserves_read; done|].
  intros [oid namespace].
  destruct (match namespace with
            | Some _ => namespace
            | None => defaultNamespace
            end).
  - apply preserves_bind; [apply same_dicts_tables_trans| |].
    + apply preserves_modify. done.
    + intros _. apply preserves_ret. done.
  - apply preserves_raise. done.
Qed.

Lemma table_rows_frame (namespace : string) (items : list TableItem)
    (rows_ : list (gmap string string)) :
  preserves same_dicts_tables (table_rows namespace items rows_).
Proof.
  revert rows_. induction items as [|row items IH]; intros rows_;
    cbn [table_rows].
  - apply preserves_ret. done.
  - apply preserves_bind; [apply same_dicts_tables_trans| |].
    + destruct row as [row|row].
      * apply preserves_bind;
          [apply same_dicts_tables_trans|apply preserves_read; done|].
        intros [rowId rowNamespace]. apply preserves_read. done.
      * apply MorkRow_fromAst_frame.
    + intros newRow. apply IH.
Qed.

Lemma MorkTable_fromAst_frame (ast : Table) :
  preserves same_dicts (_MorkTable_fromAst ast).
Proof.
  unfold _MorkTable_fromAst.
  apply preserves_bind; [apply same_dicts_trans|apply preserves_read; done|].
  intros [oid [namespace|]].
  - apply preserves_bind; [apply same_dicts_trans| |].
    + apply same_dicts_tables_same_dicts, table_rows_frame.
    + intros rows_.
      apply preserves_bind; [apply same_dicts_trans| |].
      * apply preserves_modify. done.
      * intros _. apply preserves_ret. done.
  - apply preserves_raise. done.
Qed.

(** C9: whether it ends normally or with an exception, processing a Dict
    item leaves the Row Store and the Table Store as they were, and
    processing a Row item leaves the Dictionary Store and the Table Store
    as they were; the Table builder leaves the Dictionary Store as it was
    (it writes the Table Store and, for inline rows, the Row Store). *)
Theorem builders_write_their_own_store :
  (∀ (ast : Dict) (db : MorkDatabase),
     rows (_MorkDict_fromAst ast db).2 = rows db
     ∧ tables (_MorkDict_fromAst ast db).2 = tables db)
  ∧ (∀ (ast : Row) (defaultNamespace : option string) (db : MorkDatabase),
     dicts (_MorkRow_fromAst ast defaultNamespace db).2 = dicts db
     ∧ tables (_MorkRow_fromAst ast defaultNamespace db).2 = tables db)
  ∧ (∀ (ast : Table) (db : MorkDatabase),
     dicts (_MorkTable_fromAst ast db).2 = dicts db).
Proof.
  split; [|split].
  - intros ast db. apply (MorkDict_fromAst_frame ast db).
  - intros ast d db. apply (MorkRow_fromAst_frame ast d db).
  - intros ast db. apply (MorkTable_fromAst_frame ast db).
Qed.

(** ** Object stores *)

Lemma MorkStore_get_set {V} (store : gmap string (gmap string V))
    (key : string * string) (value : V) :
  _MorkStore_getitem (_MorkStore_setitem store key value) key = Ok value.
Proof.
  destruct key as [namespace oid]. unfold _MorkStore_getitem, _MorkStore_setitem.
  rewrite lookup_insert_eq, lookup_insert_eq. reflexivity.
Qed.

Lemma MorkStore_getitem_fail {V} (store : gmap string (gmap string V))
    (key : string * string) :
  (∀ v, _MorkStore_getitem store key ≠ Ok v) →
  ∃ k, _MorkStore_getitem store key = Raise (KeyError k).
Proof.
  destruct key as [namespace oid]. unfold _MorkStore_getitem. intros H.
  destruct (store !! namespace) as [objs|]; [|eauto].
  destruct (objs !! oid) as [v|]; [|eauto].
  destruct (H v). reflexivity.
Qed.

(** ** Row builder *)

Lemma row_cells_inflate_all (db : MorkDatabase) (cs : list Cell)
    (self : gmap string string) :
  row_cells db cs self
  = pairs ← inflate_all db cs; Ok (foldl insert_pair self pairs).
Proof.
  revert self. induction cs as [|cell cs IH]; intros self;
    cbn [row_cells inflate_all]; [reflexivity|].
  destruct (_inflateCell db cell) as [[column value]|e]; [|reflexivity].
  cbn. rewrite IH. destruct (inflate_all db cs); reflexivity.
Qed.

Lemma foldl_insert_pair (pairs : list (string * string))
    (self : gmap string string) :
  foldl insert_pair self pairs = list_to_map (reverse pairs) ∪ self.
Proof.
  revert self. induction pairs as [|[column value] pairs IH]; intros self.
  - cbn. rewrite (left_id_L ∅ (∪)). reflexivity.
  - cbn [foldl]. rewrite IH, reverse_cons, list_to_map_app.
    unfold insert_pair. cbn [fst snd list_to_map].
    rewrite <- (assoc_L (∪)). f_equal.
    change (list_to_map [(column, value)] : gmap string string)
      with (<[column := value]> (∅ : gmap string string)).
    rewrite <- insert_union_l, (left_id_L ∅ (∪)). reflexivity.
Qed.

Lemma MorkRow_fromAst_run (ast : Row) (defaultNamespace : option string)
    (db : MorkDatabase) :
  _MorkRow_fromAst ast defaultNamespace db
  = match row_cells db (Row_cells ast) ∅ with
    | Raise e => (Raise e, db)
    | Ok self =>
        match _dissectId db (Row_rowid ast) with
        | Raise e => (Raise e, db)
        | Ok _ =>
            match row_key db ast defaultNamespace with
            | None => (Raise (AssertionError "no namespace found for row"), db)
            | Some key =>
                (Ok self,
                 set_rows (fun rows => _MorkStore_setitem rows key self) db)
            end
        end
    end.
Proof.
  unfold _MorkRow_fromAst, row_key. rewrite M_bind_run. unfold read at 1.
  destruct (row_cells db (Row_cells ast) ∅) as [self|e]; [|reflexivity].
  rewrite M_bind_run. unfold read at 1.
  destruct (_dissectId db (Row_rowid ast)) as [[oid [namespace|]]|e];
    [reflexivity| |reflexivity].
  destruct defaultNamespace; reflexivity.
Qed.

Lemma MorkRow_fromAst_Ok (ast : Row) (defaultNamespace : option string)
    (db db' : MorkDatabase) (row : gmap string string) :
  _MorkRow_fromAst ast defaultNamespace db = (Ok row, db') →
  ∃ key, row_key db ast defaultNamespace = Some key
         ∧ db' = set_rows (fun rows => _MorkStore_setitem rows key row) db.
Proof.
  rewrite MorkRow_fromAst_run.
  destruct (row_cells db (Row_cells ast) ∅) as [self|e]; [|discriminate].
  destruct (_dissectId db (Row_rowid ast)) as [p|e]; [|discriminate].
  destruct (row_key db ast defaultNamespace) as [key|]; [|discriminate].
  intros [= <- <-]. exists key. split; reflexivity.
Qed.

(** C7: when two Row items resolve to the same key and the cells of the
    later one resolve, processing the later one succeeds and stores at that
    key the row made of the later item's cells alone, in place of the row
    the earlier item stored: its columns are exactly the columns of the
    later item's cells, each with the value of the last cell that names it,
    and a column of the earlier row that the later item does not define is
    absent. *)
Theorem row_redefinition_replaces (db1 db2 : MorkDatabase) (r1 r2 : Row)
    (d1 d2 : option string) (key : string * string)
    (row1 : gmap string string) (pairs : list (string * string)) :
  _MorkRow_fromAst r1 d1 db1 = (Ok row1, db2) →
  row_key db1 r1 d1 = Some key →
  row_key db2 r2 d2 = Some key →
  inflate_all db2 (Row_cells r2) = Ok pairs →
  ∃ (row2 : gmap string string) (db3 : MorkDatabase),
    _MorkStore_getitem (rows db2) key = Ok row1
    ∧ _MorkRow_fromAst r2 d2 db2 = (Ok row2, db3)
    ∧ _MorkStore_getitem (rows db3) key = Ok row2
    ∧ row2 = list_to_map (reverse pairs)
    ∧ (∀ column, is_Some (row2 !! column) ↔ column ∈ pairs.*1)
    ∧ (∀ l1 column value l2,
         pairs = l1 ++ (column, value) :: l2 → column ∉ l2.*1 →
         row2 !! column = Some value)
    ∧ (∀ column, is_Some (row1 !! column) → column ∉ pairs.*1 →
         row2 !! column = None).
Proof.
  intros Hr1 Hk1 Hk2 Hpairs.
  exists (list_to_map (reverse pairs)).
  exists (set_rows (fun rows =>
            _MorkStore_setitem rows key (list_to_map (reverse pairs))) db2).
  assert (Hdom : ∀ column,
    is_Some ((list_to_map (reverse pairs) : gmap string string) !! column)
    ↔ column ∈ pairs.*1).
  { intros column. rewrite <- elem_of_dom, dom_list_to_map_L.
    rewrite elem_of_list_to_set, fmap_reverse, elem_of_reverse. reflexivity. }
  repeat split.
  - apply MorkRow_fromAst_Ok in Hr1 as (key' & Hk' & ->).
    assert (key' = key) as -> by congruence.
    cbn [rows set_rows]. apply MorkStore_get_set.
  - rewrite MorkRow_fromAst_run, row_cells_inflate_all, Hpairs. cbn.
    rewrite foldl_insert_pair, (right_id_L ∅ (∪)).
    unfold row_key in Hk2 |- *.
    destruct (_dissectId db2 (Row_rowid r2)) as [p|e]; [|discriminate].
    rewrite Hk2. reflexivity.
  - cbn [rows set_rows]. apply MorkStore_get_set.
  - apply Hdom.
  - apply Hdom.
  - intros l1 column value l2 -> Hl2.
    rewrite reverse_app, reverse_cons, <- (assoc_L (++)), list_to_map_app.
    rewrite lookup_union_r by (apply not_elem_of_list_to_map_1;
      rewrite fmap_reverse, elem_of_reverse; exact Hl2).
    cbn. apply lookup_insert_eq.
  - intros column _ Hnot. apply eq_None_not_Some. rewrite Hdom. exact Hnot.
Qed.

Lemma row_redefinition_replaces_witness :
  ∃ (row2 : gmap string string) (db3 : MorkDatabase),
    _MorkRow_fromAst row_b None (_MorkRow_fromAst row_ab None MorkDatabase_init).2
    = (Ok row2, db3)
    ∧ _MorkStore_getitem (rows db3) ("ns", "1") = Ok row2
    ∧ row2 !! "b" = Some "3"
    ∧ row2 !! "a" = None.
Proof.
  destruct (row_redefinition_replaces
              MorkDatabase_init
              (_MorkRow_fromAst row_ab None MorkDatabase_init).2
              row_ab row_b None None ("ns", "1")
              (<["b" := "2"]> (<["a" := "1"]> ∅)) [("b", "3")])
    as (row2 & db3 & _ & Hrun & Hget & Hrow & _).
  - vm_compute. reflexivity.
  - vm_compute. reflexivity.
  - vm_compute. reflexivity.
  - vm_compute. reflexivity.
  - exists row2, db3. rewrite Hrow at 3 4. repeat split; assumption || reflexivity.
Defined.

(** ** Table builder *)

Lemma table_rows_app (namespace : string) (l1 l2 : list TableItem)
    (rows_ : list (gmap string string)) (db : MorkDatabase) :
  table_rows namespace (l1 ++ l2) rows_ db
  = (table_rows namespace l1 rows_ ≫= table_rows namespace l2) db.
Proof.
  revert rows_ db. induction l1 as [|row l1 IH]; intros rows_ db.
  - reflexivity.
  - cbn [app table_rows]. rewrite !M_bind_run.
    destruct (_ db) as [[newRow|e] db']; [|reflexivity].
    rewrite IH, M_bind_run. reflexivity.
Qed.

Lemma build_items_app (l1 l2 : list Item) (db : MorkDatabase) :
  build_items (l1 ++ l2) db = (build_items l1 ≫= fun _ => build_items l2) db.
Proof.
  revert db. induction l1 as [|item l1 IH]; intros db.
  - reflexivity.
  - cbn [app build_items]. rewrite !M_bind_run.
    destruct (build_item item db) as [[[]|e] db']; [|reflexivity].
    rewrite IH, M_bind_run. reflexivity.
Qed.

Lemma MorkTable_fromAst_row_missing (db db1 : MorkDatabase) (ast : Table)
    (oid namespace : string) (pre post : list TableItem) (row : ObjectId)
    (rows_ : list (gmap string string)) (rowId key : string)
    (rowNamespace : option string) :
  _dissectId db (Table_tableid ast) = Ok (oid, Some namespace) →
  Table_rows ast = pre ++ ItemObjectId row :: post →
  table_rows namespace pre [] db = (Ok rows_, db1) →
  _dissectId db1 row = Ok (rowId, rowNamespace) →
  _MorkStore_getitem (rows db1) (default namespace rowNamespace, rowId)
  = Raise (KeyError key) →
  _MorkTable_fromAst ast db = (Raise (KeyError key), db1).
Proof.
  intros Hid Hrows Hpre Hrow Hget.
  unfold _MorkTable_fromAst. rewrite M_bind_run. unfold read at 1.
  rewrite Hid, M_bind_run, Hrows, table_rows_app, M_bind_run, Hpre.
  cbn [table_rows]. rewrite !M_bind_run. unfold read at 1. rewrite Hrow.
  unfold read at 1. rewrite Hget. reflexivity.
Qed.

(** C6: when the scan of a table body reaches a bare row identifier whose
    key (the table's namespace standing in for an absent one) has no row in
    the Row Store at that point, the Table builder raises the [KeyError] of
    the store lookup, the Table Store is as it was before the item (no table
    is produced), and the run over the items that contains this Table item
    ends with that exception: no database is returned. *)
Theorem table_bare_row_must_exist (db db1 : MorkDatabase) (ast : Table)
    (oid namespace : string) (pre post : list TableItem) (row : ObjectId)
    (rows_ : list (gmap string string)) (rowId : string)
    (rowNamespace : option string) :
  _dissectId db (Table_tableid ast) = Ok (oid, Some namespace) →
  Table_rows ast = pre ++ ItemObjectId row :: post →
  table_rows namespace pre [] db = (Ok rows_, db1) →
  _dissectId db1 row = Ok (rowId, rowNamespace) →
  (∀ r, _MorkStore_getitem (rows db1) (default namespace rowNamespace, rowId)
        ≠ Ok r) →
  ∃ key,
    _MorkTable_fromAst ast db = (Raise (KeyError key), db1)
    ∧ tables db1 = tables db
    ∧ (∀ before after db0,
         build_items before db0 = (Ok tt, db) →
         build_items (before ++ TableItem_ ast :: after) db0
         = (Raise (KeyError key), db1))
    ∧ (∀ before after,
         build_items before MorkDatabase_init = (Ok tt, db) →
         MorkDatabase_fromAst (mkDatabase (before ++ TableItem_ ast :: after))
         = Raise (KeyError key)).
Proof.
  intros Hid Hrows Hpre Hrow Hnone.
  destruct (MorkStore_getitem_fail _ _ Hnone) as [key Hget].
  pose proof (MorkTable_fromAst_row_missing db db1 ast oid namespace pre post
                row rows_ rowId key rowNamespace Hid Hrows Hpre Hrow Hget)
    as Hfail.
  assert (Hitems : ∀ before after db0,
             build_items before db0 = (Ok tt, db) →
             build_items (before ++ TableItem_ ast :: after) db0
             = (Raise (KeyError key), db1)).
  { intros before after db0 Hbefore.
    rewrite build_items_app, M_bind_run, Hbefore.
    cbn [build_items build_item]. rewrite !M_bind_run, Hfail. reflexivity. }
  exists key. repeat split.
  - exact Hfail.
  - pose proof (table_rows_frame namespace pre [] db) as [_ Ht].
    rewrite Hpre in Ht. exact Ht.
  - exact Hitems.
  - intros before after Hbefore. unfold MorkDatabase_fromAst.
    cbn [Database_items]. rewrite (Hitems before after _ Hbefore). reflexivity.
Qed.

Lemma table_bare_row_must_exist_witness :
  ∃ key,
    _MorkTable_fromAst table_X MorkDatabase_init
    = (Raise (KeyError key), MorkDatabase_init)
    ∧ MorkDatabase_fromAst (mkDatabase [TableItem_ table_X])
      = Raise (KeyError key).
Proof.
  destruct (table_bare_row_must_exist MorkDatabase_init MorkDatabase_init
              table_X "1" "ns" [] [] (mkObjectId "X" ScopeNone) [] "X" None)
    as (key & Hfail & _ & _ & Hbuild).
  - reflexivity.
  - reflexivity.
  - reflexivity.
  - reflexivity.
  - intros r. vm_compute. discriminate.
  - exists key. split; [exact Hfail|].
    apply (Hbuild [] []). reflexivity.
Defined.

(** ** The signed 32-bit converter *)

(** C10, as the code has it: unless option [no_base] is set, a field value
    [v] with [0 <= int(v, 16) <= 0xffffffff] is converted to the decimal
    numeral of [int(v, 16)] when that is at most [0x7fffffff] and of
    [int(v, 16) - 2^32] otherwise, which is the number in the signed 32-bit
    range congruent to it modulo [2^32]; above [0xffffffff] the conversion
    fails with an [AssertionError]. With [no_base] set the value is returned
    as it is, whatever it holds. *)
Theorem signed_int32_convert (opts : Options) (value : string) (n : Z) :
  _to_int _signed_int32_converter value = Ok n →
  (no_base opts = false →
     (0 <= n <= 0x7fffffff →
        _SignedInt32_convert _signed_int32_converter opts value
        = Ok (unicode n))
     ∧ (0x7fffffff < n <= 0xffffffff →
        _SignedInt32_convert _signed_int32_converter opts value
        = Ok (unicode (n - 2 ^ 32)))
     ∧ (0 <= n <= 0xffffffff →
        ∃ r, _SignedInt32_convert _signed_int32_converter opts value
             = Ok (unicode r)
             ∧ - 2 ^ 31 <= r < 2 ^ 31 ∧ r mod 2 ^ 32 = n)
     ∧ (0xffffffff < n →
        _SignedInt32_convert _signed_int32_converter opts value
        = Raise (AssertionError "integer too large for 32 bits")))
  ∧ (no_base opts = true →
     _SignedInt32_convert _signed_int32_converter opts value = Ok value).
Proof.
  intros Hint. unfold _SignedInt32_convert. split.
  - intros ->. rewrite Hint. cbn [mbind result_bind].
    assert (Hlo : 0 <= n <= 0x7fffffff →
              (if 0xffffffff <? n
               then Raise (AssertionError "integer too large for 32 bits")
               else Ok (unicode (if 0x7fffffff <? n then n - 0x100000000 else n)))
              = Ok (unicode n)).
    { intros Hn.
      destruct (Z.ltb_spec 0xffffffff n) as [?|_]; [lia|].
      destruct (Z.ltb_spec 0x7fffffff n) as [?|_]; [lia|]. reflexivity. }
    assert (Hhi : 0x7fffffff < n <= 0xffffffff →
              (if 0xffffffff <? n
               then Raise (AssertionError "integer too large for 32 bits")
               else Ok (unicode (if 0x7fffffff <? n then n - 0x100000000 else n)))
              = Ok (unicode (n - 2 ^ 32))).
    { intros Hn.
      destruct (Z.ltb_spec 0xffffffff n) as [?|_]; [lia|].
      destruct (Z.ltb_spec 0x7fffffff n) as [_|?]; [|lia]. reflexivity. }
    split; [exact Hlo|split; [exact Hhi|split]].
    + intros Hn. destruct (Z_le_gt_dec n 0x7fffffff) as [Hle|Hgt].
      * exists n. rewrite Hlo by lia. split; [reflexivity|].
        split; [lia|]. apply Z.mod_small. lia.
      * exists (n - 2 ^ 32). rewrite Hhi by lia. split; [reflexivity|].
        split; [lia|].
        replace (n - 2 ^ 32) with (n + (-1) * 2 ^ 32) by lia.
        rewrite Z.mod_add by lia. apply Z.mod_small. lia.
    + intros Hn.
      destruct (Z.ltb_spec 0xffffffff n) as [_|?]; [reflexivity|lia].
  - intros ->. reflexivity.
Qed.

Lemma signed_int32_convert_witness :
  _SignedInt32_convert _signed_int32_converter default_options "ffffffff"
  = Ok "-1"
  ∧ _SignedInt32_convert _signed_int32_converter default_options "7fffffff"
    = Ok "2147483647"
  ∧ _SignedInt32_convert _signed_int32_converter default_options "100000000"
    = Raise (AssertionError "integer too large for 32 bits").
Proof.
  split; [|split].
  - refine (proj1 (proj2 (proj1 (signed_int32_convert default_options
              "ffffffff" 0xffffffff _) _)) _);
      [vm_compute; reflexivity|reflexivity|lia].
  - refine (proj1 (proj1 (signed_int32_convert default_options
              "7fffffff" 0x7fffffff _) _) _);
      [vm_compute; reflexivity|reflexivity|lia].
  - refine (proj2 (proj2 (proj2 (proj1 (signed_int32_convert default_options
              "100000000" 0x100000000 _) _))) _);
      [vm_compute; reflexivity|reflexivity|lia].
Defined.

(** C10 as it is worded fails: with option [no_base] set, the converter
    returns the hexadecimal text of a value in range, and returns, without
    failing, a value above [0xffffffff]. *)
Lemma signed_int32_no_base_returns_value :
  _to_int _signed_int32_converter "ffffffff" = Ok 0xffffffff
  ∧ _SignedInt32_convert _signed_int32_converter no_base_options "ffffffff"
    = Ok "ffffffff"
  ∧ _SignedInt32_convert _signed_int32_converter no_base_options "ffffffff"
    ≠ Ok (unicode (0xffffffff - 2 ^ 32))
  ∧ _to_int _signed_int32_converter "100000000" = Ok 0x100000000
  ∧ _SignedInt32_convert _signed_int32_converter no_base_options "100000000"
    = Ok "100000000".
Proof.
  repeat split; vm_compute; reflexivity || discriminate.
Qed.

(** * Further properties *)

(** ** Escape decoder: failures, length, encodings *)

Lemma escape_match_inv (s text rest : string) :
  _escape_match s = Some (text, rest) →
  (∃ h1 h2, is_hex h1 = true ∧ is_hex h2 = true
            ∧ s = String dollar (String h1 (String h2 rest))
            ∧ text = String dollar (String h1 (str1 h2)))
  ∨ (s = String bslash (String CR (String LF rest))
     ∧ text = String bslash (String CR (str1 LF)))
  ∨ (∃ x, s = String bslash (String x rest)
          ∧ text = String bslash (str1 x)).
Proof.
  destruct s as [|c0 [|c1 [|c2 rest2]]]; cbn [_escape_match]; try discriminate.
  - destruct (Ascii.eqb c0 bslash) eqn:Hb; [|discriminate].
    apply Ascii.eqb_eq in Hb. subst c0. intros [= <- <-]. right. right. eauto.
  - destruct (Ascii.eqb c0 dollar && is_hex c1 && is_hex c2) eqn:Hd.
    { apply andb_true_iff in Hd as [Hd H2]. apply andb_true_iff in Hd as [Hd H1].
      apply Ascii.eqb_eq in Hd. subst c0. intros [= <- <-].
      left. exists c1, c2. auto. }
    destruct (Ascii.eqb c0 bslash && Ascii.eqb c1 CR && Ascii.eqb c2 LF) eqn:Hc.
    { apply andb_true_iff in Hc as [Hc H2]. apply andb_true_iff in Hc as [Hc H1].
      apply Ascii.eqb_eq in Hc, H1, H2. subst. intros [= <- <-].
      right. left. auto. }
    destruct (Ascii.eqb c0 bslash) eqn:Hb; [|discriminate].
    apply Ascii.eqb_eq in Hb. subst c0. intros [= <- <-]. right. right. eauto.
Qed.

Lemma translateEscape_bslash (x : ascii) :
  (_translateEscape (String bslash (str1 x)) = Ok (str1 x)
   ∧ (x = rparen ∨ x = bslash ∨ x = dollar))
  ∨ (_translateEscape (String bslash (str1 x)) = Ok EmptyString ∧ x = LF)
  ∨ (_translateEscape (String bslash (str1 x))
     = Raise (KeyError (String bslash (str1 x)))
     ∧ x ≠ rparen ∧ x ≠ bslash ∧ x ≠ dollar ∧ x ≠ LF).
Proof.
  destruct (ascii_dec x rparen) as [->|H1]; [left; split; [reflexivity|auto]|].
  destruct (ascii_dec x bslash) as [->|H2]; [left; split; [reflexivity|auto]|].
  destruct (ascii_dec x dollar) as [->|H3]; [left; split; [reflexivity|auto]|].
  destruct (ascii_dec x LF) as [->|H4]; [right; left; split; reflexivity|].
  right. right. split; [apply translateEscape_other; assumption|auto].
Qed.

Lemma string_length_ind (P : string → Prop) :
  (∀ s, (∀ t, (String.length t < String.length s)%nat → P t) → P s) →
  ∀ s, P s.
Proof.
  intros Hstep s. remember (String.length s) as n eqn:Hn. revert s Hn.
  induction n as [n IH] using lt_wf_ind. intros s ->.
  apply Hstep. intros t Ht. exact (IH _ Ht t eq_refl).
Qed.

Lemma bind_Ok_inv {A B} (r : result A) (f : A → result B) (b : B) :
  r ≫= f = Ok b → ∃ a, r = Ok a ∧ f a = Ok b.
Proof. destruct r as [a|e]; [eauto|discriminate]. Qed.

Lemma bind_Raise_inv {A B} (r : result A) (f : A → result B) (e : exn) :
  r ≫= f = Raise e → r = Raise e ∨ ∃ a, r = Ok a ∧ f a = Raise e.
Proof. destruct r as [a|e']; [eauto|]. intros [= ->]. auto. Qed.

Lemma string_app_cons (c : ascii) (s1 s2 : string) :
  String c s1 +:+ s2 = String c (s1 +:+ s2).
Proof. reflexivity. Qed.

Lemma string_app_assoc (s1 s2 s3 : string) :
  s1 +:+ (s2 +:+ s3) = (s1 +:+ s2) +:+ s3.
Proof.
  induction s1 as [|c s1 IH]; [reflexivity|].
  rewrite !string_app_cons, IH. reflexivity.
Qed.

Lemma string_app_length (s1 s2 : string) :
  String.length (s1 +:+ s2) = (String.length s1 + String.length s2)%nat.
Proof.
  induction s1 as [|c s1 IH]; [reflexivity|].
  rewrite string_app_cons. cbn [String.length]. rewrite IH. reflexivity.
Qed.

Lemma unescape_Raise_inv (s : string) (e : exn) :
  _unescape s = Raise e →
  ∃ pre x post,
    s = pre +:+ String bslash (String x post)
    ∧ e = KeyError (String bslash (str1 x))
    ∧ x ≠ rparen ∧ x ≠ bslash ∧ x ≠ dollar ∧ x ≠ LF.
Proof.
  induction s as [s IH] using string_length_ind.
  destruct s as [|c rest0]; [discriminate|].
  destruct (_escape_match (String c rest0)) as [[text rest]|] eqn:Hm.
  - rewrite (unescape_match _ _ _ Hm).
    assert (Hrest : ∀ pre0, String c rest0 = pre0 +:+ rest →
              (String.length rest < String.length (String c rest0))%nat →
              _unescape rest = Raise e →
              ∃ pre x post,
                String c rest0 = pre +:+ String bslash (String x post)
                ∧ e = KeyError (String bslash (str1 x))
                ∧ x ≠ rparen ∧ x ≠ bslash ∧ x ≠ dollar ∧ x ≠ LF).
    { intros pre0 Hs Hlen Hr.
      destruct (IH rest Hlen Hr) as (pre & x & post & -> & He).
      exists (pre0 +:+ pre), x, post. split; [|exact He].
      rewrite Hs. apply string_app_assoc. }
    destruct (escape_match_inv _ _ _ Hm)
      as [(h1 & h2 & H1 & H2 & Hs & ->)|[[Hs ->]|(x & Hs & ->)]].
    + rewrite translateEscape_hex by assumption. cbn [mbind result_bind].
      intros Hr. apply bind_Raise_inv in Hr as [Hr|(a & _ & [=])].
      apply (Hrest (String dollar (String h1 (str1 h2)))); [exact Hs| |exact Hr].
      rewrite Hs. cbn. lia.
    + change (_translateEscape (String bslash (String CR (str1 LF))))
        with (Ok EmptyString). cbn [mbind result_bind].
      intros Hr. apply bind_Raise_inv in Hr as [Hr|(a & _ & [=])].
      apply (Hrest (String bslash (String CR (str1 LF)))); [exact Hs| |exact Hr].
      rewrite Hs. cbn. lia.
    + destruct (translateEscape_bslash x) as [[Ht _]|[[Ht _]|[Ht Hx]]];
        rewrite Ht; cbn [mbind result_bind].
      * intros Hr. apply bind_Raise_inv in Hr as [Hr|(a & _ & [=])].
        apply (Hrest (String bslash (str1 x))); [exact Hs| |exact Hr].
        rewrite Hs. cbn. lia.
      * intros Hr. apply bind_Raise_inv in Hr as [Hr|(a & _ & [=])].
        apply (Hrest (String bslash (str1 x))); [exact Hs| |exact Hr].
        rewrite Hs. cbn. lia.
      * intros [= <-]. exists EmptyString, x, rest.
        split; [exact Hs|split; [reflexivity|exact Hx]].
  - rewrite (unescape_no_match _ _ Hm).
    intros Hr. apply bind_Raise_inv in Hr as [Hr|(a & _ & [=])].
    destruct (IH rest0 (Nat.lt_succ_diag_r _) Hr) as (pre & x & post & -> & He).
    exists (String c pre), x, post. split; [reflexivity|exact He].
Qed.

Lemma no_bslash_app (pre post : string) :
  no_bslash (pre +:+ post) = no_bslash pre && no_bslash post.
Proof.
  induction pre as [|c pre IH]; [reflexivity|].
  rewrite string_app_cons. cbn [no_bslash]. rewrite IH, andb_assoc.
  reflexivity.
Qed.

(** X1: the decoder fails only at a backslash followed by a character that
    the escape table lacks, and the [KeyError] names that two-character
    text; so a string that holds no backslash always decodes. *)
Theorem unescape_fails_only_on_unknown_escape (s : string) :
  (∀ e, _unescape s = Raise e →
     ∃ pre x post,
       s = pre +:+ String bslash (String x post)
       ∧ e = KeyError (String bslash (str1 x))
       ∧ x ≠ rparen ∧ x ≠ bslash ∧ x ≠ dollar ∧ x ≠ LF)
  ∧ (no_bslash s = true → ∃ out, _unescape s = Ok out).
Proof.
  split; [apply unescape_Raise_inv|].
  intros Hs. destruct (_unescape s) as [out|e] eqn:Hr; [eauto|].
  apply unescape_Raise_inv in Hr as (pre & x & post & -> & _).
  rewrite no_bslash_app in Hs. apply andb_true_iff in Hs as [_ Hs].
  cbn [no_bslash] in Hs. rewrite Ascii.eqb_refl in Hs. discriminate Hs.
Qed.

Lemma unescape_fails_only_on_unknown_escape_witness :
  (∃ pre x post,
     "ab" +:+ String bslash "qcd" = pre +:+ String bslash (String x post)
     ∧ x ≠ rparen ∧ x ≠ bslash ∧ x ≠ dollar ∧ x ≠ LF)
  ∧ ∃ out, _unescape "a$41$" = Ok out.
Proof.
  split.
  - destruct (proj1 (unescape_fails_only_on_unknown_escape
                       ("ab" +:+ String bslash "qcd"))
                    (KeyError (String bslash "q")) eq_refl)
      as (pre & x & post & Hs & _ & Hx).
    exists pre, x, post. split; [exact Hs|exact Hx].
  - exact (proj2 (unescape_fails_only_on_unknown_escape "a$41$") eq_refl).
Defined.

Lemma translateEscape_length (s text rest repl : string) :
  _escape_match s = Some (text, rest) →
  _translateEscape text = Ok repl →
  (String.length repl + String.length rest < String.length s)%nat.
Proof.
  intros Hm Ht.
  destruct (escape_match_inv _ _ _ Hm)
    as [(h1 & h2 & H1 & H2 & -> & ->)|[[-> ->]|(x & -> & ->)]].
  - rewrite translateEscape_hex in Ht by assumption.
    injection Ht as <-. unfold str1. cbn [String.length]. lia.
  - change (_translateEscape (String bslash (String CR (str1 LF))))
      with (Ok EmptyString) in Ht.
    injection Ht as <-. unfold str1. cbn [String.length]. lia.
  - destruct (translateEscape_bslash x) as [[Hx _]|[[Hx _]|[Hx _]]];
      rewrite Hx in Ht; [injection Ht as <-..|discriminate];
      unfold str1; cbn [String.length]; lia.
Qed.

(** X2: decoding never lengthens: the decoded string is at most as long
    as the input. *)
Theorem unescape_length (s out : string) :
  _unescape s = Ok out → (String.length out <= String.length s)%nat.
Proof.
  revert out. induction s as [s IH] using string_length_ind. intros out.
  destruct s as [|c rest0]; [intros [= <-]; reflexivity|].
  destruct (_escape_match (String c rest0)) as [[text rest]|] eqn:Hm.
  - rewrite (unescape_match _ _ _ Hm). intros Hr.
    apply bind_Ok_inv in Hr as (repl & Ht & Hr).
    apply bind_Ok_inv in Hr as (out' & Hrest & [= <-]).
    pose proof (translateEscape_length _ _ _ _ Hm Ht) as Hlen.
    assert (String.length out' <= String.length rest)%nat
      by (apply IH; [lia|exact Hrest]).
    rewrite string_app_length. lia.
  - rewrite (unescape_no_match _ _ Hm). intros Hr.
    apply bind_Ok_inv in Hr as (out' & Hrest & [= <-]).
    assert (String.length out' <= String.length rest0)%nat
      by (apply IH; [cbn [String.length]; lia|exact Hrest]).
    cbn [String.length]. lia.
Qed.

Lemma unescape_length_witness :
  (String.length "A)" <= String.length ("$41" +:+ String bslash ")"))%nat.
Proof.
  apply (unescape_length ("$41" +:+ String bslash ")") "A)"). reflexivity.
Defined.

Lemma hex2_digits (b : ascii) :
  let n := N.of_nat (nat_of_ascii b) in
  is_hex (hex_digit_upper (n / 16)%N) = true
  ∧ is_hex (hex_digit_upper (n mod 16)%N) = true
  ∧ byte_of_hex (hex_digit_upper (n / 16)%N) (hex_digit_upper (n mod 16)%N) = b.
Proof.
  cbv zeta.
  assert (H : (let n := N.of_nat (nat_of_ascii b) in
               is_hex (hex_digit_upper (n / 16)%N)
               && is_hex (hex_digit_upper (n mod 16)%N)
               && Ascii.eqb (byte_of_hex (hex_digit_upper (n / 16)%N)
                                         (hex_digit_upper (n mod 16)%N)) b)
              = true).
  { revert b. apply ascii_forall. vm_compute. reflexivity. }
  cbv zeta in H. apply andb_true_iff in H as [H H3].
  apply andb_true_iff in H as [H1 H2]. apply Ascii.eqb_eq in H3. auto.
Qed.

(** X3: every byte string is the decoding of its hexadecimal writing (each
    byte as [$] and two upper-case hexadecimal digits) and of its backslash
    writing (close-paren, backslash and dollar sign after a backslash, the
    other bytes as they are). *)
Theorem unescape_encodings (t : string) :
  _unescape (hex_encode t) = Ok t ∧ _unescape (bslash_encode t) = Ok t.
Proof.
  split.
  - induction t as [|b t IH]; [reflexivity|].
    change (hex_encode (String b t))
      with (String dollar
              (String (hex_digit_upper (N.of_nat (nat_of_ascii b) / 16)%N)
                 (String (hex_digit_upper (N.of_nat (nat_of_ascii b) mod 16)%N)
                    (hex_encode t)))).
    destruct (hex2_digits b) as (H1 & H2 & Hb).
    rewrite (unescape_match _ _ _ (escape_match_dollar_hex _ _ _ H1 H2)).
    rewrite translateEscape_hex by assumption. rewrite Hb, IH. reflexivity.
  - induction t as [|b t IH]; [reflexivity|].
    cbn [bslash_encode].
    destruct (Ascii.eqb b rparen || Ascii.eqb b bslash || Ascii.eqb b dollar)
      eqn:Hb.
    + assert (Hx : b = rparen ∨ b = bslash ∨ b = dollar).
      { apply orb_true_iff in Hb as [Hb|Hb];
          [apply orb_true_iff in Hb as [Hb|Hb]|];
          apply Ascii.eqb_eq in Hb; auto. }
      rewrite (unescape_match _ (String bslash (str1 b)) (bslash_encode t)).
      * assert (Ht : _translateEscape (String bslash (str1 b)) = Ok (str1 b))
          by (destruct Hx as [->|[->| ->]]; reflexivity).
        rewrite Ht, IH. reflexivity.
      * apply escape_match_bslash. intros rest' [-> _].
        destruct Hx as [Hx|[Hx|Hx]]; discriminate Hx.
    + apply orb_false_iff in Hb as [Hb Hd].
      apply orb_false_iff in Hb as [_ Hb].
      rewrite unescape_no_match, IH; [reflexivity|].
      apply escape_match_other; intros ->;
        rewrite Ascii.eqb_refl in *; discriminate.
Qed.

(** ** Dictionary store *)

Lemma preseeded_entries :
  forallb preseeded_entry (map_to_list _MorkDict_init) = true
  ∧ size _MorkDict_init = 128%nat.
Proof. split; vm_compute; reflexivity. Qed.

(** X4: the pre-seeded table holds exactly 128 entries, and an alias is
    defined in it only when it is ['%X' % i] for some [i] below [0x80], with
    the one-character string of that code point as its value. *)
Theorem preseeded_aliases_only :
  size _MorkDict_init = 128%nat
  ∧ ∀ alias value,
      _MorkDict_init !! alias = Some value →
      ∃ i, (i < 128)%nat ∧ alias = fmtX (N.of_nat i)
           ∧ value = str1 (ascii_of_nat i).
Proof.
  destruct preseeded_entries as [Hall Hsize]. split; [exact Hsize|].
  intros alias value Hl. rewrite forallb_forall in Hall.
  apply elem_of_map_to_list, list_elem_of_In, Hall in Hl.
  unfold preseeded_entry in Hl. apply existsb_exists in Hl as (i & Hi & Hl).
  apply in_seq in Hi. apply andb_true_iff in Hl as [H1 H2].
  apply String.eqb_eq in H1, H2. cbn [fst snd] in *. exists i.
  split; [lia|auto].
Qed.

Lemma preseeded_aliases_only_witness :
  ∃ i, (i < 128)%nat ∧ "7F" = fmtX (N.of_nat i)
       ∧ str1 (ascii_of_nat 127) = str1 (ascii_of_nat i).
Proof.
  apply (proj2 preseeded_aliases_only "7F" (str1 (ascii_of_nat 127))).
  vm_compute. reflexivity.
Defined.

Lemma MorkDict_fromAst_cases (ast : Dict) (db : MorkDatabase) :
  _MorkDict_fromAst ast db
  = match dict_cells (Dict_cells ast) _MorkDict_init with
    | Raise e => (Raise e, db)
    | Ok cells =>
        if (1 <? length (Dict_meta ast))%nat
        then (Raise (AssertionError "multiple meta-dicts"), db)
        else match Dict_namespace ast with
             | Literal ns =>
                 (Ok tt,
                  set_dicts (fun dicts =>
                    <[ns := cells ∪ default ∅ (dicts !! ns)]> dicts) db)
             | Reference _ => (Ok tt, db)
             end
    end.
Proof.
  unfold _MorkDict_fromAst. rewrite M_bind_run. unfold read at 1.
  destruct (dict_cells (Dict_cells ast) _MorkDict_init) as [cells|e];
    [|reflexivity].
  destruct (1 <? length (Dict_meta ast))%nat; [reflexivity|].
  fold (Dict_namespace ast).
  destruct (Dict_namespace ast) as [ns|ref]; [|reflexivity].
  unfold modify, set_dicts.
  destruct (dicts db !! ns) as [existing|]; cbn [default]; [reflexivity|].
  rewrite (right_id_L ∅ (∪)). reflexivity.
Qed.

Lemma dict_cells_app (l1 l2 : list Cell) (acc : gmap string string) :
  dict_cells (l1 ++ l2) acc = dict_cells l1 acc ≫= dict_cells l2.
Proof.
  revert acc. induction l1 as [|cell l1 IH]; intros acc; [reflexivity|].
  cbn [app dict_cells].
  destruct (match Cell_value cell with
            | Literal value => _unescape value
            | Reference _ => Raise TypeError
            end) as [value|e]; [|reflexivity].
  cbn [mbind result_bind]. apply IH.
Qed.

Lemma dict_cells_other (l : list Cell) (acc cells : gmap string string)
    (k : string) :
  dict_cells l acc = Ok cells →
  Forall (fun c => Cell_column c ≠ Literal k) l →
  cells !! k = acc !! k.
Proof.
  revert acc. induction l as [|cell l IH]; intros acc; cbn [dict_cells].
  - intros [= <-] _. reflexivity.
  - destruct (match Cell_value cell with
              | Literal value => _unescape value
              | Reference _ => Raise TypeError
              end) as [value|e]; [|discriminate].
    cbn [mbind result_bind]. intros Hcs Hall.
    apply Forall_cons in Hall as [Hcell Hall].
    rewrite (IH _ Hcs Hall).
    destruct (Cell_column cell) as [column|]; [|reflexivity].
    apply lookup_insert_ne. congruence.
Qed.

(** X5: after a Dict item was processed, the alias of a cell reads as the
    decoded value of the last cell of the item that names it, in the
    namespace of the item: it overrides the pre-seeded entry and what
    earlier items defined. *)
Theorem dict_definition_visible (ast : Dict) (db db' : MorkDatabase)
    (ns : string) (l1 l2 : list Cell) (cell : Cell) (k raw : string) :
  _MorkDict_fromAst ast db = (Ok tt, db') →
  Dict_namespace ast = Literal ns →
  Dict_cells ast = l1 ++ cell :: l2 →
  Cell_column cell = Literal k →
  Cell_value cell = Literal raw →
  Forall (fun c => Cell_column c ≠ Literal k) l2 →
  ∃ v, _unescape raw = Ok v ∧ dicts_getitem db' ns k = Ok v.
Proof.
  intros Hrun Hns Hcells Hcol Hval Hl2.
  rewrite MorkDict_fromAst_cases, Hcells, dict_cells_app in Hrun.
  destruct (dict_cells l1 _MorkDict_init) as [c1|e]; [|discriminate].
  cbn [mbind result_bind dict_cells] in Hrun. rewrite Hcol, Hval in Hrun.
  destruct (_unescape raw) as [v|e]; [|discriminate].
  cbn [mbind result_bind] in Hrun.
  destruct (dict_cells l2 (<[k:=v]> c1)) as [cells|e] eqn:Hc2; [|discriminate].
  destruct (1 <? length (Dict_meta ast))%nat; [discriminate|].
  rewrite Hns in Hrun. injection Hrun as <-.
  exists v. split; [reflexivity|].
  unfold dicts_getitem. cbn [dicts set_dicts]. rewrite lookup_insert_eq.
  assert (Hk : cells !! k = Some v)
    by (rewrite (dict_cells_other _ _ _ k Hc2 Hl2); apply lookup_insert_eq).
  rewrite (lookup_union_Some_l _ _ _ _ Hk). reflexivity.
Qed.

Lemma dict_definition_visible_witness :
  ∃ v, _unescape "$68i" = Ok v
       ∧ dicts_getitem
           (_MorkDict_fromAst
              (mkDict [lit "5" "history"; lit "5" "$68i"] [[lit "a" "c"]])
              db_history).2 "c" "5" = Ok v.
Proof.
  apply (dict_definition_visible
           (mkDict [lit "5" "history"; lit "5" "$68i"] [[lit "a" "c"]])
           db_history
           (_MorkDict_fromAst
              (mkDict [lit "5" "history"; lit "5" "$68i"] [[lit "a" "c"]])
              db_history).2
           "c" [lit "5" "history"] [] (lit "5" "$68i") "5" "$68i").
  - vm_compute. reflexivity.
  - reflexivity.
  - reflexivity.
  - reflexivity.
  - reflexivity.
  - constructor.
Defined.

(** X6: a Dict item changes the dictionary of the namespace it names and
    no other: every other namespace reads as before, whether the item is
    processed to the end or raises. *)
Theorem dict_item_other_namespaces (ast : Dict) (db : MorkDatabase)
    (ns : string) :
  Dict_namespace ast ≠ Literal ns →
  dicts (_MorkDict_fromAst ast db).2 !! ns = dicts db !! ns.
Proof.
  intros Hns. rewrite MorkDict_fromAst_cases.
  destruct (dict_cells (Dict_cells ast) _MorkDict_init) as [cells|e];
    [|reflexivity].
  destruct (1 <? length (Dict_meta ast))%nat; [reflexivity|].
  destruct (Dict_namespace ast) as [target|ref]; [|reflexivity].
  cbn [snd dicts set_dicts]. apply lookup_insert_ne. congruence.
Qed.

Lemma dict_item_other_namespaces_witness :
  dicts db_history !! "a" = dicts MorkDatabase_init !! "a".
Proof.
  apply (dict_item_other_namespaces
           (mkDict [lit "5" "history"] [[lit "a" "c"]]) MorkDatabase_init "a").
  vm_compute. discriminate.
Defined.

(** X7: a Dict item that raises leaves the whole database as it was; an
    item with more than one meta-dict always raises; and an item whose cell
    values are literals that decode, with at most one meta-dict, is
    processed to the end. *)
Theorem dict_item_failure (ast : Dict) (db : MorkDatabase) :
  (∀ e db', _MorkDict_fromAst ast db = (Raise e, db') → db' = db)
  ∧ ((1 < length (Dict_meta ast))%nat →
     ∃ e, _MorkDict_fromAst ast db = (Raise e, db))
  ∧ (∀ cells, dict_cells (Dict_cells ast) _MorkDict_init = Ok cells →
     (length (Dict_meta ast) <= 1)%nat →
     (_MorkDict_fromAst ast db).1 = Ok tt).
Proof.
  rewrite MorkDict_fromAst_cases. split; [|split].
  - intros e db'.
    destruct (dict_cells (Dict_cells ast) _MorkDict_init) as [cells|e'];
      [|congruence].
    destruct (1 <? length (Dict_meta ast))%nat; [congruence|].
    destruct (Dict_namespace ast); discriminate.
  - intros Hmeta. apply Nat.ltb_lt in Hmeta. rewrite Hmeta.
    destruct (dict_cells (Dict_cells ast) _MorkDict_init); eauto.
  - intros cells -> Hmeta.
    destruct (Nat.ltb_spec 1 (length (Dict_meta ast))) as [?|_]; [lia|].
    destruct (Dict_namespace ast); reflexivity.
Qed.

Lemma dict_item_failure_witness :
  (∃ e, _MorkDict_fromAst (mkDict [lit "80" "x"] [[]; []]) MorkDatabase_init
        = (Raise e, MorkDatabase_init))
  ∧ (_MorkDict_fromAst (mkDict [lit "80" "x"] [[]]) MorkDatabase_init).1
    = Ok tt.
Proof.
  split.
  - apply (proj1 (proj2 (dict_item_failure (mkDict [lit "80" "x"] [[]; []])
                           MorkDatabase_init))).
    cbn. lia.
  - apply (proj2 (proj2 (dict_item_failure (mkDict [lit "80" "x"] [[]])
                           MorkDatabase_init))
             (<["80" := "x"]> _MorkDict_init)).
    + vm_compute. reflexivity.
    + cbn. lia.
Defined.

(** ** Object stores *)

(** X8: a store reads back what was written at a key, a second write at
    the key replaces the first, and a write at one key never changes what
    another key reads. *)
Theorem store_set_get {V} (store : gmap string (gmap string V))
    (key key' : string * string) (v v' : V) :
  _MorkStore_getitem (_MorkStore_setitem store key v) key = Ok v
  ∧ _MorkStore_setitem (_MorkStore_setitem store key v') key v
    = _MorkStore_setitem store key v
  ∧ (key' ≠ key →
     ∀ r, _MorkStore_getitem (_MorkStore_setitem store key v) key' = Ok r
          ↔ _MorkStore_getitem store key' = Ok r).
Proof.
  split; [apply MorkStore_get_set|split].
  - destruct key as [ns oid]. unfold _MorkStore_setitem.
    rewrite lookup_insert_eq. cbn.
    rewrite insert_insert_eq, insert_insert_eq. reflexivity.
  - destruct key as [ns oid], key' as [ns' oid']. intros Hne r.
    unfold _MorkStore_getitem, _MorkStore_setitem.
    destruct (decide (ns = ns')) as [<-|Hns].
    + rewrite lookup_insert_eq.
      rewrite lookup_insert_ne by congruence.
      destruct (store !! ns) as [objs|]; cbn; [reflexivity|].
      rewrite lookup_empty. split; discriminate.
    + rewrite lookup_insert_ne by exact Hns. reflexivity.
Qed.

Lemma store_set_get_witness :
  _MorkStore_getitem
    (_MorkStore_setitem (_MorkStore_setitem ∅ ("ns", "2") 5%nat)
                        ("ns", "1") 7%nat) ("ns", "2")
  = Ok 5%nat
  ↔ _MorkStore_getitem (_MorkStore_setitem ∅ ("ns", "2") 5%nat) ("ns", "2")
    = Ok 5%nat.
Proof.
  apply (proj2 (proj2 (store_set_get (_MorkStore_setitem ∅ ("ns", "2") 5%nat)
                         ("ns", "1") ("ns", "2") 7%nat 7%nat))).
  discriminate.
Defined.

(** ** Reference resolver *)

Lemma dicts_getitem_dicts (db db' : MorkDatabase) (ns alias : string) :
  dicts db = dicts db' → dicts_getitem db ns alias = dicts_getitem db' ns alias.
Proof. intros H. unfold dicts_getitem. rewrite H. reflexivity. Qed.

Lemma dissectId_dicts (db db' : MorkDatabase) :
  dicts db = dicts db' →
  ∀ oid, _dissectId db oid = _dissectId db' oid.
Proof.
  intros Hd.
  apply (ObjectId_mutind
           (fun oid => _dissectId db oid = _dissectId db' oid)
           (fun scope => ∀ i, _dissectId db (mkObjectId i scope)
                              = _dissectId db' (mkObjectId i scope))
           (fun ref => ∀ d, _dictDeref db ref d = _dictDeref db' ref d)).
  - intros objectid scope IH. apply IH.
  - reflexivity.
  - reflexivity.
  - intros ref IH i. cbn [_dissectId]. rewrite IH. reflexivity.
  - intros obj IH d. cbn [_dictDeref]. rewrite IH.
    destruct (_dissectId db' obj) as [[oid namespace]|e]; [|reflexivity].
    cbn [mbind result_bind]. apply dicts_getitem_dicts, Hd.
Qed.

Lemma dictDeref_dicts (db db' : MorkDatabase) (ref : ObjectRef) (d : string) :
  dicts db = dicts db' → _dictDeref db ref d = _dictDeref db' ref d.
Proof.
  intros Hd. destruct ref as [obj]. cbn [_dictDeref].
  rewrite (dissectId_dicts db db' Hd).
  destruct (_dissectId db' obj) as [[oid namespace]|e]; [|reflexivity].
  cbn [mbind result_bind]. apply dicts_getitem_dicts, Hd.
Qed.

Lemma inflateCell_dicts (db db' : MorkDatabase) (cell : Cell) :
  dicts db = dicts db' → _inflateCell db cell = _inflateCell db' cell.
Proof.
  intros Hd. unfold _inflateCell.
  destruct (Cell_column cell) as [c|c], (Cell_value cell) as [v|v];
    rewrite ?(dictDeref_dicts db db' _ _ Hd); reflexivity.
Qed.

Lemma build_item_dicts (item : Item) (db : MorkDatabase) :
  is_DictItem item = false → dicts (build_item item db).2 = dicts db.
Proof.
  destruct item as [d|r|t|]; [discriminate| | |reflexivity]; intros _;
    cbn [build_item].
  - apply (preserves_bind same_dicts same_dicts_trans).
    + apply same_dicts_tables_same_dicts, MorkRow_fromAst_frame.
    + intros _. apply preserves_ret. done.
  - apply (preserves_bind same_dicts same_dicts_trans).
    + apply MorkTable_fromAst_frame.
    + intros _. apply preserves_ret. done.
Qed.

(** X9: what an identifier, a reference or a cell resolves to depends on
    the Dictionary Store alone, so processing a Row item, a Table item or a
    skipped item never changes the outcome of any resolution. *)
Theorem resolution_unchanged_by_rows_and_tables (item : Item)
    (db : MorkDatabase) :
  is_DictItem item = false →
  (∀ oid, _dissectId (build_item item db).2 oid = _dissectId db oid)
  ∧ (∀ ref d, _dictDeref (build_item item db).2 ref d = _dictDeref db ref d)
  ∧ (∀ cell, _inflateCell (build_item item db).2 cell = _inflateCell db cell).
Proof.
  intros Hitem. pose proof (build_item_dicts item db Hitem) as Hd.
  split; [|split].
  - apply dissectId_dicts, Hd.
  - intros ref d. apply dictDeref_dicts, Hd.
  - intros cell. apply inflateCell_dicts, Hd.
Qed.

Lemma resolution_unchanged_by_rows_and_tables_witness :
  _dissectId (build_item (RowItem row_ab) db_history).2
             (mkObjectId "3" (ScopeRef (ref_to "5" ScopeNone)))
  = Ok ("3", Some "history").
Proof.
  rewrite (proj1 (resolution_unchanged_by_rows_and_tables
                    (RowItem row_ab) db_history eq_refl)).
  vm_compute. reflexivity.
Defined.

(** ** Row builder *)

Lemma row_key_None_fails (ast : Row) (d : option string) (db : MorkDatabase) :
  row_key db ast d = None → ∃ e, _MorkRow_fromAst ast d db = (Raise e, db).
Proof.
  intros Hk. rewrite MorkRow_fromAst_run, Hk.
  destruct (row_cells db (Row_cells ast) ∅); [|eauto].
  destruct (_dissectId db (Row_rowid ast)); eauto.
Qed.

(** X10: a Row item that raises leaves the whole database as it was; a row
    whose identifier yields no namespace, with no default to take, always
    raises; so a top-level Row item whose identifier has no scope stops
    the build. *)
Theorem row_item_failure (ast : Row) (d : option string) (db : MorkDatabase) :
  (∀ e db', _MorkRow_fromAst ast d db = (Raise e, db') → db' = db)
  ∧ (row_key db ast d = None →
     ∃ e, _MorkRow_fromAst ast d db = (Raise e, db))
  ∧ (∀ i, Row_rowid ast = mkObjectId i ScopeNone →
     ∃ e, build_item (RowItem ast) db = (Raise e, db)).
Proof.
  split; [|split].
  - intros e db'. rewrite MorkRow_fromAst_run.
    destruct (row_cells db (Row_cells ast) ∅); [|congruence].
    destruct (_dissectId db (Row_rowid ast)); [|congruence].
    destruct (row_key db ast d); [discriminate|congruence].
  - apply row_key_None_fails.
  - intros i Hid. cbn [build_item]. rewrite M_bind_run.
    destruct (row_key_None_fails ast None db) as [e He].
    + unfold row_key. rewrite Hid. reflexivity.
    + rewrite He. eauto.
Qed.

Lemma row_item_failure_witness :
  ∃ e, build_item
         (RowItem (mkRow (mkObjectId "1" ScopeNone) [lit "a" "1"]
                         false false false))
         MorkDatabase_init
       = (Raise e, MorkDatabase_init).
Proof.
  apply (proj2 (proj2 (row_item_failure
           (mkRow (mkObjectId "1" ScopeNone) [lit "a" "1"] false false false)
           None MorkDatabase_init)) "1").
  reflexivity.
Defined.

(** X11: a Row item that is processed to the end writes exactly one key of
    the Row Store, the key it resolves to: the row it returns is read there
    afterwards, and every other key reads as before. *)
Theorem row_item_writes_one_key (ast : Row) (d : option string)
    (db db' : MorkDatabase) (row : gmap string string) :
  _MorkRow_fromAst ast d db = (Ok row, db') →
  ∃ key, row_key db ast d = Some key
         ∧ _MorkStore_getitem (rows db') key = Ok row
         ∧ ∀ key' r, key' ≠ key →
             (_MorkStore_getitem (rows db') key' = Ok r
              ↔ _MorkStore_getitem (rows db) key' = Ok r).
Proof.
  intros Hrun. apply MorkRow_fromAst_Ok in Hrun as (key & Hk & ->).
  exists key. split; [exact Hk|]. cbn [rows set_rows]. split.
  - apply MorkStore_get_set.
  - intros [ns' oid'] r Hne. destruct key as [ns oid].
    unfold _MorkStore_getitem, _MorkStore_setitem.
    destruct (decide (ns = ns')) as [<-|Hns].
    + rewrite lookup_insert_eq, lookup_insert_ne by congruence.
      destruct (rows db !! ns) as [objs|]; cbn; [reflexivity|].
      rewrite lookup_empty. split; discriminate.
    + rewrite lookup_insert_ne by exact Hns. reflexivity.
Qed.

Lemma row_item_writes_one_key_witness :
  ∃ key, row_key (_MorkRow_fromAst row_ab None MorkDatabase_init).2 row_b None
         = Some key
         ∧ key = ("ns", "1").
Proof.
  destruct (row_item_writes_one_key row_b None
              (_MorkRow_fromAst row_ab None MorkDatabase_init).2
              (_MorkRow_fromAst row_b None
                 (_MorkRow_fromAst row_ab None MorkDatabase_init).2).2
              (<["b" := "3"]> ∅))
    as (key & Hk & _).
  - vm_compute. reflexivity.
  - exists key. split; [exact Hk|].
    vm_compute in Hk. injection Hk as <-. reflexivity.
Defined.

(** ** Table builder *)

Lemma MorkRow_fromAst_Some (ast : Row) (d : option string)
    (db : MorkDatabase) (key : string * string)
    (pairs : list (string * string)) :
  inflate_all db (Row_cells ast) = Ok pairs →
  row_key db ast d = Some key →
  _MorkRow_fromAst ast d db
  = (Ok (list_to_map (reverse pairs)),
     set_rows (fun rows =>
       _MorkStore_setitem rows key (list_to_map (reverse pairs))) db).
Proof.
  intros Hpairs Hk.
  rewrite MorkRow_fromAst_run, row_cells_inflate_all, Hpairs. cbn.
  rewrite foldl_insert_pair, (right_id_L ∅ (∪)).
  unfold row_key in Hk |- *.
  destruct (_dissectId db (Row_rowid ast)) as [p|e]; [|discriminate].
  rewrite Hk. reflexivity.
Qed.

(** X12: an inline row of a table body whose identifier has no scope is
    stored in the namespace of the table: when the body ends with such a
    row and the cells of the row resolve, the table is built, its last row
    is the row made of these cells, and the row is read at (table
    namespace, row id) in the Row Store and the table at its own key. *)
Theorem table_inline_row_namespace (db db1 : MorkDatabase) (ast : Table)
    (oid ns i : string) (pre : list TableItem) (r : Row)
    (rs : list (gmap string string)) (pairs : list (string * string)) :
  _dissectId db (Table_tableid ast) = Ok (oid, Some ns) →
  Table_rows ast = pre ++ [ItemRow r] →
  table_rows ns pre [] db = (Ok rs, db1) →
  Row_rowid r = mkObjectId i ScopeNone →
  inflate_all db1 (Row_cells r) = Ok pairs →
  ∃ db',
    _MorkTable_fromAst ast db
    = (Ok (mk_MorkTable (rs ++ [list_to_map (reverse pairs)])), db')
    ∧ _MorkStore_getitem (rows db') (ns, i) = Ok (list_to_map (reverse pairs))
    ∧ _MorkStore_getitem (tables db') (ns, oid)
      = Ok (mk_MorkTable (rs ++ [list_to_map (reverse pairs)])).
Proof.
  intros Hid Hrows Hpre Hr Hpairs.
  assert (Hk : row_key db1 r (Some ns) = Some (ns, i))
    by (unfold row_key; rewrite Hr; reflexivity).
  eexists. split; [|split].
  - unfold _MorkTable_fromAst. rewrite M_bind_run. unfold read at 1.
    rewrite Hid, M_bind_run, Hrows, table_rows_app, M_bind_run, Hpre.
    cbn [table_rows]. rewrite !M_bind_run.
    rewrite (MorkRow_fromAst_Some r (Some ns) db1 (ns, i) pairs Hpairs Hk).
    reflexivity.
  - cbn [rows set_tables set_rows]. apply MorkStore_get_set.
  - cbn [tables set_tables]. apply MorkStore_get_set.
Qed.

Lemma table_inline_row_namespace_witness :
  ∃ db',
    _MorkTable_fromAst
      (mkTable (mkObjectId "1" (ScopeName "ns"))
               [ItemRow (mkRow (mkObjectId "7" ScopeNone) [lit "a" "1"]
                               false false false)] false false)
      MorkDatabase_init
    = (Ok (mk_MorkTable ([] ++ [list_to_map (reverse [("a", "1")])])), db')
    ∧ _MorkStore_getitem (rows db') ("ns", "7")
      = Ok (list_to_map (reverse [("a", "1")]))
    ∧ _MorkStore_getitem (tables db') ("ns", "1")
      = Ok (mk_MorkTable ([] ++ [list_to_map (reverse [("a", "1")])])).
Proof.
  apply (table_inline_row_namespace MorkDatabase_init MorkDatabase_init
           (mkTable (mkObjectId "1" (ScopeName "ns"))
              [ItemRow (mkRow (mkObjectId "7" ScopeNone) [lit "a" "1"]
                              false false false)] false false)
           "1" "ns" "7" []
           (mkRow (mkObjectId "7" ScopeNone) [lit "a" "1"] false false false)
           [] [("a", "1")]); reflexivity.
Defined.

Lemma MorkStore_get_set_other {V} (store : gmap string (gmap string V))
    (key key' : string * string) (v r : V) :
  key' ≠ key →
  _MorkStore_getitem (_MorkStore_setitem store key v) key' = Ok r
  ↔ _MorkStore_getitem store key' = Ok r.
Proof.
  destruct key as [ns oid], key' as [ns' oid']. intros Hne.
  unfold _MorkStore_getitem, _MorkStore_setitem.
  destruct (decide (ns = ns')) as [<-|Hns].
  - rewrite lookup_insert_eq, lookup_insert_ne by congruence.
    destruct (store !! ns) as [objs|]; cbn; [reflexivity|].
    rewrite lookup_empty. split; discriminate.
  - rewrite lookup_insert_ne by exact Hns. reflexivity.
Qed.

Lemma table_rows_length (ns : string) (items : list TableItem)
    (acc rs : list (gmap string string)) (db db' : MorkDatabase) :
  table_rows ns items acc db = (Ok rs, db') →
  ∃ new, rs = acc ++ new ∧ length new = length items.
Proof.
  revert acc db. induction items as [|item items IH]; intros acc db;
    cbn [table_rows].
  - intros [= <- <-]. exists []. rewrite app_nil_r. auto.
  - rewrite M_bind_run. destruct (_ db) as [[newRow|e] db1]; [|discriminate].
    intros Hrest. apply IH in Hrest as (new & -> & Hlen).
    exists (newRow :: new). rewrite <- app_assoc. cbn. auto.
Qed.

Lemma MorkTable_fromAst_Ok (ast : Table) (db db' : MorkDatabase)
    (t : _MorkTable) :
  _MorkTable_fromAst ast db = (Ok t, db') →
  ∃ oid ns rs db1,
    _dissectId db (Table_tableid ast) = Ok (oid, Some ns)
    ∧ table_rows ns (Table_rows ast) [] db = (Ok rs, db1)
    ∧ t = mk_MorkTable rs
    ∧ db' = set_tables (fun tables => _MorkStore_setitem tables (ns, oid) t) db1.
Proof.
  unfold _MorkTable_fromAst. rewrite M_bind_run. unfold read at 1.
  destruct (_dissectId db (Table_tableid ast)) as [[oid [ns|]]|e];
    [|discriminate..].
  rewrite M_bind_run.
  destruct (table_rows ns (Table_rows ast) [] db) as [[rs|e] db1] eqn:Hrs;
    [|discriminate].
  intros [= <- <-]. exists oid, ns, rs, db1. repeat split; auto.
Qed.

(** X13: a Table item that is processed to the end yields a table with
    one row per body entry; the table is read afterwards at the key its
    identifier resolves to, and every other key of the Table Store reads
    as before. *)
Theorem table_item_result (ast : Table) (db db' : MorkDatabase)
    (t : _MorkTable) :
  _MorkTable_fromAst ast db = (Ok t, db') →
  length (_rows t) = length (Table_rows ast)
  ∧ ∃ oid ns,
      _dissectId db (Table_tableid ast) = Ok (oid, Some ns)
      ∧ _MorkStore_getitem (tables db') (ns, oid) = Ok t
      ∧ ∀ key' r, key' ≠ (ns, oid) →
          (_MorkStore_getitem (tables db') key' = Ok r
           ↔ _MorkStore_getitem (tables db) key' = Ok r).
Proof.
  intros Hrun.
  apply MorkTable_fromAst_Ok in Hrun as (oid & ns & rs & db1 & Hid & Hrs & -> & ->).
  split.
  - apply table_rows_length in Hrs as (new & -> & Hlen). exact Hlen.
  - exists oid, ns. split; [exact Hid|]. cbn [tables set_tables].
    split; [apply MorkStore_get_set|].
    intros key' r Hne. rewrite MorkStore_get_set_other by exact Hne.
    pose proof (table_rows_frame ns (Table_rows ast) [] db) as [_ Ht].
    rewrite Hrs in Ht. cbn [snd] in Ht. rewrite Ht. reflexivity.
Qed.

Lemma table_item_result_witness :
  length (_rows (mk_MorkTable [<["a" := "1"]> ∅]))
  = length [ItemRow (mkRow (mkObjectId "7" ScopeNone) [lit "a" "1"]
                           false false false)].
Proof.
  apply (table_item_result
           (mkTable (mkObjectId "1" (ScopeName "ns"))
              [ItemRow (mkRow (mkObjectId "7" ScopeNone) [lit "a" "1"]
                              false false false)] false false)
           MorkDatabase_init
           (_MorkTable_fromAst
              (mkTable (mkObjectId "1" (ScopeName "ns"))
                 [ItemRow (mkRow (mkObjectId "7" ScopeNone) [lit "a" "1"]
                                 false false false)] false false)
              MorkDatabase_init).2).
  vm_compute. reflexivity.
Defined.

Lemma table_rows_references (ns : string) (items : list TableItem)
    (acc rs : list (gmap string string)) (db db' : MorkDatabase) :
  forallb is_ItemObjectId items = true →
  table_rows ns items acc db = (Ok rs, db') →
  db' = db ∧ ∃ new, rs = acc ++ new ∧ Forall2 (referenced_row db ns) items new.
Proof.
  revert acc. induction items as [|item items IH]; intros acc;
    cbn [table_rows forallb].
  - intros _ [= <- <-]. split; [reflexivity|]. exists [].
    rewrite app_nil_r. split; [reflexivity|constructor].
  - intros Hall. apply andb_true_iff in Hall as [Hitem Hall].
    destruct item as [x|r]; [|discriminate]. rewrite !M_bind_run.
    unfold read at 1.
    destruct (_dissectId db x) as [[rowId rowNamespace]|e] eqn:Hx;
      [|discriminate].
    unfold read at 1.
    destruct (_MorkStore_getitem (rows db) (default ns rowNamespace, rowId))
      as [newRow|e] eqn:Hget; [|discriminate].
    intros Hrest. apply (IH _ Hall) in Hrest as (-> & new & -> & Hnew).
    split; [reflexivity|]. exists (newRow :: new).
    rewrite <- app_assoc. split; [reflexivity|].
    constructor; [|exact Hnew]. exists x, rowId, rowNamespace. auto.
Qed.

(** X14: a table whose body lists only bare row identifiers leaves the Row
    Store as it was, and its rows are, in body order, the rows the Row
    Store holds for these identifiers (the table's namespace standing in
    for an absent one). *)
Theorem table_of_references (ast : Table) (db db' : MorkDatabase)
    (t : _MorkTable) :
  forallb is_ItemObjectId (Table_rows ast) = true →
  _MorkTable_fromAst ast db = (Ok t, db') →
  rows db' = rows db
  ∧ ∃ oid ns,
      _dissectId db (Table_tableid ast) = Ok (oid, Some ns)
      ∧ Forall2 (referenced_row db ns) (Table_rows ast) (_rows t).
Proof.
  intros Hall Hrun.
  apply MorkTable_fromAst_Ok in Hrun as (oid & ns & rs & db1 & Hid & Hrs & -> & ->).
  apply (table_rows_references _ _ _ _ _ _ Hall) in Hrs as (-> & new & -> & Hnew).
  split; [reflexivity|]. exists oid, ns. split; [exact Hid|exact Hnew].
Qed.

Lemma table_of_references_witness :
  rows (_MorkTable_fromAst
          (mkTable (mkObjectId "1" (ScopeName "ns"))
                   [ItemObjectId (mkObjectId "1" ScopeNone)] false false)
          (_MorkRow_fromAst row_ab None MorkDatabase_init).2).2
  = rows (_MorkRow_fromAst row_ab None MorkDatabase_init).2.
Proof.
  apply (table_of_references
           (mkTable (mkObjectId "1" (ScopeName "ns"))
                    [ItemObjectId (mkObjectId "1" ScopeNone)] false false)
           (_MorkRow_fromAst row_ab None MorkDatabase_init).2
           (_MorkTable_fromAst
              (mkTable (mkObjectId "1" (ScopeName "ns"))
                       [ItemObjectId (mkObjectId "1" ScopeNone)] false false)
              (_MorkRow_fromAst row_ab None MorkDatabase_init).2).2
           (mk_MorkTable [<["b" := "2"]> (<["a" := "1"]> ∅)])).
  - reflexivity.
  - vm_compute. reflexivity.
Defined.

(** X15: a Table item that raises stores no table and changes no
    dictionary: the Table Store and the Dictionary Store are as they were;
    a table whose identifier has no scope always raises, before anything
    is written (a table takes no namespace from its context). *)
Theorem table_item_failure (ast : Table) (db : MorkDatabase) :
  (∀ e db', _MorkTable_fromAst ast db = (Raise e, db') →
     tables db' = tables db ∧ dicts db' = dicts db)
  ∧ (∀ i, Table_tableid ast = mkObjectId i ScopeNone →
     _MorkTable_fromAst ast db
     = (Raise (AssertionError "no namespace found for table"), db)).
Proof.
  split.
  - intros e db'. unfold _MorkTable_fromAst. rewrite M_bind_run.
    unfold read at 1.
    destruct (_dissectId db (Table_tableid ast)) as [[oid [ns|]]|e'].
    + rewrite M_bind_run.
      pose proof (table_rows_frame ns (Table_rows ast) [] db) as [Hd Ht].
      destruct (table_rows ns (Table_rows ast) [] db) as [[rs|e'] db1];
        [discriminate|].
      intros [= <- <-]. auto.
    + intros [= <- <-]. auto.
    + intros [= <- <-]. auto.
  - intros i Hid. unfold _MorkTable_fromAst. rewrite M_bind_run.
    unfold read at 1. rewrite Hid. reflexivity.
Qed.

Lemma table_item_failure_witness :
  _MorkTable_fromAst (mkTable (mkObjectId "1" ScopeNone) [] false false)
                     MorkDatabase_init
  = (Raise (AssertionError "no namespace found for table"), MorkDatabase_init).
Proof.
  apply (proj2 (table_item_failure
                  (mkTable (mkObjectId "1" ScopeNone) [] false false)
                  MorkDatabase_init) "1").
  reflexivity.
Defined.

(** ** Database builder *)

Lemma build_items_cons (item : Item) (items : list Item) (db : MorkDatabase) :
  build_items (item :: items) db
  = match build_item item db with
    | (Ok _, db') => build_items items db'
    | (Raise e, db') => (Raise e, db')
    end.
Proof.
  cbn [build_items]. rewrite M_bind_run.
  destruct (build_item item db) as [[[]|e] db']; reflexivity.
Qed.

(** X16: items of a class without a builder are skipped: leaving them out
    of the item list changes neither the outcome nor the database. *)
Theorem other_items_are_skipped (items : list Item) (db : MorkDatabase) :
  build_items (filter (fun item => is_OtherItem item = false) items) db
  = build_items items db.
Proof.
  revert db. induction items as [|item items IH]; intros db; [reflexivity|].
  destruct item as [d|r|t|].
  - rewrite filter_cons_True by reflexivity. rewrite !build_items_cons.
    destruct (build_item (DictItem d) db) as [[u|e] db']; [apply IH|reflexivity].
  - rewrite filter_cons_True by reflexivity. rewrite !build_items_cons.
    destruct (build_item (RowItem r) db) as [[u|e] db']; [apply IH|reflexivity].
  - rewrite filter_cons_True by reflexivity. rewrite !build_items_cons.
    destruct (build_item (TableItem_ t) db) as [[u|e] db'];
      [apply IH|reflexivity].
  - rewrite filter_cons_False by (cbn; discriminate).
    rewrite build_items_cons. cbn [build_item]. apply IH.
Qed.

(** X17: the build stops at the first item that raises: the items after
    it are not processed, the exception is the outcome of the run, and the
    database is left as that item left it; from the initial database, no
    database is returned. *)
Theorem build_stops_at_first_failure (l1 l2 : list Item) (db db' : MorkDatabase)
    (e : exn) :
  build_items l1 db = (Raise e, db') →
  build_items (l1 ++ l2) db = (Raise e, db')
  ∧ (db = MorkDatabase_init →
     MorkDatabase_fromAst (mkDatabase (l1 ++ l2)) = Raise e).
Proof.
  intros Hl1.
  assert (H : build_items (l1 ++ l2) db = (Raise e, db'))
    by (rewrite build_items_app, M_bind_run, Hl1; reflexivity).
  split; [exact H|]. intros ->. unfold MorkDatabase_fromAst.
  cbn [Database_items]. rewrite H. reflexivity.
Qed.

Lemma build_stops_at_first_failure_witness :
  MorkDatabase_fromAst
    (mkDatabase ([TableItem_ table_X] ++ [RowItem row_ab]))
  = Raise (KeyError "ns").
Proof.
  apply (build_stops_at_first_failure [TableItem_ table_X] [RowItem row_ab]
           MorkDatabase_init MorkDatabase_init (KeyError "ns"));
    reflexivity.
Defined.

Lemma build_item_keeps_aliases (item : Item) (db : MorkDatabase)
    (ns alias v : string) :
  dicts_getitem db ns alias = Ok v →
  ∃ v', dicts_getitem (build_item item db).2 ns alias = Ok v'.
Proof.
  intros Hget. destruct (is_DictItem item) eqn:Hitem.
  - destruct item as [d| | |]; try discriminate. cbn [build_item].
    rewrite MorkDict_fromAst_cases.
    destruct (dict_cells (Dict_cells d) _MorkDict_init) as [cells|e]; [|eauto].
    destruct (1 <? length (Dict_meta d))%nat; [eauto|].
    destruct (Dict_namespace d) as [target|ref]; [|eauto].
    cbn [snd]. unfold dicts_getitem in *. cbn [dicts set_dicts].
    destruct (decide (target = ns)) as [->|Hne].
    + rewrite lookup_insert_eq.
      destruct (dicts db !! ns) as [existing|]; [|discriminate]. cbn.
      destruct (existing !! alias) as [w|] eqn:Hw; [|discriminate].
      destruct (lookup_union_is_Some cells existing alias) as [_ H].
      destruct H as [w' Hw']; [right; eauto|]. rewrite Hw'. eauto.
    + rewrite lookup_insert_ne by exact Hne. eauto.
  - rewrite (dicts_getitem_dicts _ db) by (apply build_item_dicts, Hitem).
    eauto.
Qed.

Lemma build_items_keeps_aliases (items : list Item) (db : MorkDatabase)
    (ns alias v : string) :
  dicts_getitem db ns alias = Ok v →
  ∃ v', dicts_getitem (build_items items db).2 ns alias = Ok v'.
Proof.
  revert db v. induction items as [|item items IH]; intros db v Hget;
    [eauto|].
  rewrite build_items_cons.
  destruct (build_item_keeps_aliases item db ns alias v Hget) as [v' Hv'].
  destruct (build_item item db) as [[u|e] db']; cbn [snd] in Hv'.
  - apply (IH _ _ Hv').
  - eauto.
Qed.

(** X18: no alias is ever removed: an alias that resolves in a namespace
    before a run over any items still resolves in it afterwards (its value
    may have changed); so in a database that was built, every pre-seeded
    alias of namespaces [a] and [c] resolves. *)
Theorem aliases_are_never_removed :
  (∀ items db ns alias v,
     dicts_getitem db ns alias = Ok v →
     ∃ v', dicts_getitem (build_items items db).2 ns alias = Ok v')
  ∧ (∀ ast db ns i,
     MorkDatabase_fromAst ast = Ok db →
     ns = "a" ∨ ns = "c" → (i < 128)%nat →
     ∃ v', dicts_getitem db ns (fmtX (N.of_nat i)) = Ok v').
Proof.
  split; [apply build_items_keeps_aliases|].
  intros ast db ns i Hbuild Hns Hi. unfold MorkDatabase_fromAst in Hbuild.
  destruct (build_items_keeps_aliases (Database_items ast) MorkDatabase_init
              ns (fmtX (N.of_nat i)) (str1 (ascii_of_nat i))) as [v' Hv'].
  - unfold dicts_getitem. rewrite (MorkDatabase_init_dicts ns Hns).
    rewrite (proj1 (MorkDict_init_lookup i Hi)). reflexivity.
  - destruct (build_items (Database_items ast) MorkDatabase_init)
      as [[u|e] db1]; [|discriminate].
    injection Hbuild as <-. eauto.
Qed.

Lemma aliases_are_never_removed_witness :
  ∃ v', dicts_getitem
          (build_items [DictItem (mkDict [lit "41" "x"] []);
                        DictItem (mkDict [lit "80" "y"] [])]
                       MorkDatabase_init).2 "a" "28" = Ok v'.
Proof.
  apply (proj1 aliases_are_never_removed
           [DictItem (mkDict [lit "41" "x"] []);
            DictItem (mkDict [lit "80" "y"] [])]
           MorkDatabase_init "a" "28" "(").
  vm_compute. reflexivity.
Defined.

Lemma build_items_preserves (P : MorkDatabase → MorkDatabase → Prop)
    (items : list Item) :
  (∀ db, P db db) →
  (∀ db1 db2 db3, P db1 db2 → P db2 db3 → P db1 db3) →
  Forall (fun item => preserves P (build_item item)) items →
  preserves P (build_items items).
Proof.
  intros Hrefl Htrans. induction 1 as [|item items Hitem _ IH];
    cbn [build_items].
  - apply preserves_ret, Hrefl.
  - apply (preserves_bind P Htrans); [exact Hitem|intros _; exact IH].
Qed.

(** X19: each store is changed by its own items only: a run over items
    with no Dict item leaves the Dictionary Store as it was, one with no
    Table item leaves the Table Store as it was, and one with neither Row
    nor Table items leaves the Row Store as it was. *)
Theorem stores_change_with_their_items (items : list Item)
    (db : MorkDatabase) :
  (forallb (fun item => negb (is_DictItem item)) items = true →
     dicts (build_items items db).2 = dicts db)
  ∧ (forallb (fun item => negb (is_TableItem item)) items = true →
     tables (build_items items db).2 = tables db)
  ∧ (forallb (fun item => negb (is_RowItem item || is_TableItem item)) items
     = true →
     rows (build_items items db).2 = rows db).
Proof.
  split; [|split]; intros Hall; rewrite forallb_forall in Hall.
  - apply (build_items_preserves same_dicts); [done|apply same_dicts_trans|].
    apply Forall_forall. intros item Hin db0.
    apply build_item_dicts, negb_true_iff, Hall, list_elem_of_In, Hin.
  - apply (build_items_preserves same_tables); [done|unfold same_tables; congruence|].
    apply Forall_forall. intros item Hin.
    apply list_elem_of_In, Hall in Hin.
    destruct item as [d|r|t|]; [| |discriminate|]; cbn [build_item].
    + intros db0. apply (MorkDict_fromAst_frame d db0).
    + apply (preserves_bind same_tables); [unfold same_tables; congruence| |].
      * intros db0. apply (MorkRow_fromAst_frame r None db0).
      * intros _. apply preserves_ret. done.
    + apply preserves_ret. done.
  - apply (build_items_preserves same_rows); [done|unfold same_rows; congruence|].
    apply Forall_forall. intros item Hin.
    apply list_elem_of_In, Hall in Hin.
    destruct item as [d|r|t|]; [|discriminate|discriminate|]; cbn [build_item].
    + intros db0. apply (MorkDict_fromAst_frame d db0).
    + apply preserves_ret. done.
Qed.

Lemma stores_change_with_their_items_witness :
  dicts (build_items [RowItem row_ab; TableItem_ table_X] db_history).2
  = dicts db_history.
Proof.
  apply (proj1 (stores_change_with_their_items
                  [RowItem row_ab; TableItem_ table_X] db_history)).
  reflexivity.
Defined.

(** ** Column names *)

Lemma MorkRow_columnNames_spec (row : gmap string string) (column : string) :
  column ∈ _MorkRow_columnNames row ↔ is_Some (row !! column).
Proof.
  unfold _MorkRow_columnNames. rewrite list_elem_of_fmap. split.
  - intros ([k v] & -> & Hin). apply elem_of_map_to_list in Hin. eauto.
  - intros [v Hv]. exists (column, v). split; [reflexivity|].
    apply elem_of_map_to_list, Hv.
Qed.

Lemma columnNames_foldl (rows_ : list (gmap string string))
    (acc : gset string) (column : string) :
  column ∈ foldl (fun columns row =>
                    columns ∪ list_to_set (_MorkRow_columnNames row))
                 acc rows_
  ↔ column ∈ acc ∨ ∃ row, row ∈ rows_ ∧ is_Some (row !! column).
Proof.
  revert acc. induction rows_ as [|row rows_ IH]; intros acc; cbn [foldl].
  - split; [auto|]. intros [H|(row & Hin & _)]; [exact H|].
    apply elem_of_nil in Hin. destruct Hin.
  - rewrite IH, elem_of_union, elem_of_list_to_set, MorkRow_columnNames_spec.
    split.
    + intros [[H|H]|(r & Hin & Hr)]; [auto| |].
      * right. exists row. split; [apply list_elem_of_here|exact H].
      * right. exists r. split; [apply list_elem_of_further, Hin|exact Hr].
    + intros [H|(r & Hin & Hr)]; [auto|].
      apply elem_of_cons in Hin as [->|Hin]; [auto|]. right. eauto.
Qed.

(** X20: a column name belongs to a table exactly when one of its rows
    holds that column; a table without rows has none; adding a row adds
    the row's columns to the table's; and the column names of a row are
    its keys, each once. *)
Theorem table_columnNames (t : _MorkTable) (row : gmap string string) :
  (∀ column, column ∈ _MorkTable_columnNames t
             ↔ ∃ r, r ∈ _rows t ∧ is_Some (r !! column))
  ∧ _MorkTable_columnNames _MorkTable_init = ∅
  ∧ _MorkTable_columnNames (_MorkTable_addRow t row)
    = _MorkTable_columnNames t ∪ dom row
  ∧ (∀ column, column ∈ _MorkRow_columnNames row ↔ is_Some (row !! column))
  ∧ NoDup (_MorkRow_columnNames row).
Proof.
  assert (Hspec : ∀ t column,
            column ∈ _MorkTable_columnNames t
            ↔ ∃ r, r ∈ _rows t ∧ is_Some (r !! column)).
  { intros t0 column. unfold _MorkTable_columnNames.
    rewrite columnNames_foldl. split; [|auto].
    intros [H|H]; [|exact H]. apply elem_of_empty in H. destruct H. }
  split; [apply Hspec|split; [reflexivity|split; [|split]]].
  - apply set_eq. intros column.
    rewrite elem_of_union, !Hspec, elem_of_dom. cbn [_MorkTable_addRow _rows].
    split.
    + intros (r & Hin & Hr). apply elem_of_app in Hin as [Hin|Hin]; [eauto|].
      apply list_elem_of_singleton in Hin as ->. auto.
    + intros [(r & Hin & Hr)|Hr].
      * exists r. split; [apply elem_of_app; auto|exact Hr].
      * exists row. split; [|exact Hr].
        apply elem_of_app. right. apply list_elem_of_singleton. reflexivity.
  - apply MorkRow_columnNames_spec.
  - apply NoDup_fst_map_to_list.
Qed.

(** ** Field converters: flags *)

Lemma land_pow2 (i a : Z) :
  0 <= i →
  Z.land (Z.shiftl 1 i) a = if Z.testbit a i then 2 ^ i else 0.
Proof.
  intros Hi. rewrite Z.shiftl_1_l. apply Z.bits_inj'. intros m Hm.
  rewrite Z.land_spec, Z.pow2_bits_eqb by exact Hi.
  destruct (Z.eqb_spec i m) as [->|Hne].
  - destruct (Z.testbit a m); [|rewrite Z.bits_0; reflexivity].
    rewrite Z.pow2_bits_true by exact Hm. reflexivity.
  - destruct (Z.testbit a i); [|rewrite Z.bits_0; reflexivity].
    rewrite Z.pow2_bits_false by assumption. reflexivity.
Qed.

Lemma land_pow2_eqb (i a : Z) :
  0 <= i → (Z.land (Z.shiftl 1 i) a =? 0) = negb (Z.testbit a i).
Proof.
  intros Hi. rewrite (land_pow2 i a Hi).
  destruct (Z.testbit a i); [|reflexivity].
  apply Z.eqb_neq. pose proof (Z.pow_pos_nonneg 2 i). lia.
Qed.

Lemma sub_pow2_testbit (i j a : Z) :
  0 <= i → Z.testbit a i = true → i ≠ j →
  Z.testbit (a - Z.shiftl 1 i) j = Z.testbit a j.
Proof.
  intros Hi Ha Hne.
  assert (Hsub : a - Z.shiftl 1 i = Z.clearbit a i).
  { unfold Z.clearbit. apply Z.sub_nocarry_ldiff. apply Z.bits_inj'.
    intros m Hm. rewrite Z.ldiff_spec, Z.bits_0, Z.shiftl_1_l.
    rewrite Z.pow2_bits_eqb by exact Hi.
    destruct (Z.eqb_spec i m) as [->|_]; [rewrite Ha|]; reflexivity. }
  rewrite Hsub. apply Z.clearbit_neq. exact Hne.
Qed.

Lemma get_flags_loop_named (values : list (option string)) (i ival0 ival : Z)
    (acc : list string) :
  0 <= i →
  (∀ j, i <= j → Z.testbit ival j = Z.testbit ival0 j) →
  (_get_flags_loop i values ival acc).1
  = acc ++ named_flags_from i values ival0.
Proof.
  revert i ival acc. induction values as [|flag values IH];
    intros i ival acc Hi Hbits; cbn [_get_flags_loop named_flags_from].
  - rewrite app_nil_r. reflexivity.
  - destruct flag as [name|]; [|apply IH; [lia|intros j Hj; apply Hbits; lia]].
    destruct (String.eqb name EmptyString);
      [apply IH; [lia|intros j Hj; apply Hbits; lia]|].
    cbn [negb andb]. rewrite (land_pow2_eqb i ival Hi), negb_involutive.
    rewrite <- (Hbits i) by lia.
    destruct (Z.testbit ival i) eqn:Hb.
    + rewrite IH; [rewrite <- app_assoc; reflexivity|lia|].
      intros j Hj. rewrite sub_pow2_testbit by (assumption || lia).
      apply Hbits. lia.
    + apply IH; [lia|intros j Hj; apply Hbits; lia].
Qed.

Lemma get_flags_named (self : _Flags) (opts : Options) (ival : Z) :
  _get_flags self opts ival = named_flags_from 0 (_values self) ival.
Proof.
  unfold _get_flags. apply (get_flags_loop_named _ 0 ival ival []); [lia|auto].
Qed.

Lemma named_flags_from_elem (values : list (option string)) (i ival : Z)
    (name : string) :
  name ∈ named_flags_from i values ival
  ↔ ∃ n, values !! n = Some (Some name) ∧ name ≠ EmptyString
         ∧ Z.testbit ival (i + Z.of_nat n) = true.
Proof.
  revert i. induction values as [|flag values IH]; intros i;
    cbn [named_flags_from].
  - split; [intros H; apply elem_of_nil in H; destruct H|].
    intros (n & Hn & _). rewrite lookup_nil in Hn. discriminate.
  - rewrite elem_of_app, IH. split.
    + intros [Hhere|(n & Hn & Hne & Hb)].
      * destruct flag as [name'|]; [|apply elem_of_nil in Hhere; destruct Hhere].
        destruct (String.eqb name' EmptyString) eqn:He; cbn [negb andb] in Hhere;
          [apply elem_of_nil in Hhere; destruct Hhere|].
        destruct (Z.testbit ival i) eqn:Hb;
          [|apply elem_of_nil in Hhere; destruct Hhere].
        apply list_elem_of_singleton in Hhere as ->. exists 0%nat.
        split; [reflexivity|]. split; [apply String.eqb_neq, He|].
        rewrite Z.add_0_r. exact Hb.
      * exists (S n). split; [exact Hn|]. split; [exact Hne|].
        rewrite <- Hb. f_equal. lia.
    + intros ([|n] & Hn & Hne & Hb).
      * left. cbn in Hn. injection Hn as ->.
        apply String.eqb_neq in Hne. rewrite Hne. rewrite Z.add_0_r in Hb.
        rewrite Hb. apply list_elem_of_singleton. reflexivity.
      * right. exists n. split; [exact Hn|]. split; [exact Hne|].
        rewrite <- Hb. f_equal. lia.
Qed.

(** X21: [_get_flags] returns, in bit order, the names of the bits of the
    number that are set and have a (non-empty) name: a name is returned
    exactly when its bit is set in the number given, although the loop
    tests each bit on what is left after the named bits below it were
    subtracted. *)
Theorem get_flags_are_the_named_set_bits (self : _Flags) (opts : Options)
    (ival : Z) :
  _get_flags self opts ival = named_flags_from 0 (_values self) ival
  ∧ ∀ name, name ∈ _get_flags self opts ival
            ↔ ∃ n, _values self !! n = Some (Some name)
                   ∧ name ≠ EmptyString
                   ∧ Z.testbit ival (Z.of_nat n) = true.
Proof.
  split; [apply get_flags_named|].
  intros name. rewrite get_flags_named, named_flags_from_elem. reflexivity.
Qed.

(** X22: unless option [no_symbolic] is set, [_Flags.convert] of a value
    that parses returns the names of the set named bits joined by spaces,
    and the converter's text for no flag when no named bit is set (also
    when only bits without a name are set). *)
Theorem flags_convert (self : _Flags) (opts : Options) (value : string)
    (ival : Z) :
  no_symbolic opts = false →
  _to_int (_Flags_Int self) value = Ok ival →
  _Flags_convert self opts value
  = Ok (match named_flags_from 0 (_values self) ival with
        | [] => _empty self
        | flags => join " " flags
        end).
Proof.
  intros Hopt Hint. unfold _Flags_convert. rewrite Hopt, Hint.
  cbn [mbind result_bind]. rewrite get_flags_named.
  destruct (named_flags_from 0 (_values self) ival); reflexivity.
Qed.

Lemma flags_convert_witness :
  _Flags_convert _imap_flags_converter default_options "205"
  = Ok "kImapMsgSeenFlag kImapMsgFlaggedFlag"
  ∧ _Flags_convert _imap_flags_converter default_options "200"
    = Ok "kNoImapMsgFlag".
Proof.
  split.
  - apply (flags_convert _imap_flags_converter default_options "205" 0x205);
      reflexivity.
  - apply (flags_convert _imap_flags_converter default_options "200" 0x200);
      reflexivity.
Defined.

Lemma land_shiftl (a b n : Z) :
  0 <= n → Z.land a (Z.shiftl b n) = Z.shiftl (Z.land (Z.shiftr a n) b) n.
Proof.
  intros Hn. apply Z.bits_inj'. intros m Hm.
  rewrite Z.land_spec. destruct (Z.lt_ge_cases m n) as [Hlt|Hge].
  - rewrite !Z.shiftl_spec_low by exact Hlt. apply andb_false_r.
  - rewrite !Z.shiftl_spec by exact Hm.
    rewrite Z.land_spec, Z.shiftr_spec by lia.
    replace (m - n + n) with m by lia. reflexivity.
Qed.

Lemma priority_field (ival : Z) :
  Z.land ival 0xE000 = Z.shiftl (ival / 2 ^ 13 mod 8) 13
  ∧ Z.shiftr (Z.land ival 0xE000) 13 = ival / 2 ^ 13 mod 8
  ∧ 0 <= ival / 2 ^ 13 mod 8 < 8.
Proof.
  assert (H : Z.land ival 0xE000 = Z.shiftl (ival / 2 ^ 13 mod 8) 13).
  { change 0xE000 with (Z.shiftl 7 13). rewrite land_shiftl by lia.
    change 7 with (Z.ones 3). rewrite Z.land_ones by lia.
    rewrite Z.shiftr_div_pow2 by lia. reflexivity. }
  split; [exact H|split].
  - rewrite H, Z.shiftr_shiftl_l by lia. reflexivity.
  - apply Z.mod_pos_bound. lia.
Qed.

(** X23: unless option [no_symbolic] is set, [_MsgFlags.convert] of a
    value that parses fails with the assertion on the priority exactly
    when bits 13 to 15 of the number are all set (priority 7, for which
    there is no label); otherwise it returns a text. *)
Theorem msg_flags_priority (opts : Options) (value : string) (ival : Z) :
  no_symbolic opts = false →
  _to_int (_Flags_Int _msg_flags_converter) value = Ok ival →
  (Z.land ival 0xE000 = 0xE000 →
     _MsgFlags_convert _msg_flags_converter opts value
     = Raise (AssertionError "invalid priority"))
  ∧ (Z.land ival 0xE000 ≠ 0xE000 →
     ∃ out, _MsgFlags_convert _msg_flags_converter opts value = Ok out).
Proof.
  intros Hopt Hint. unfold _MsgFlags_convert. rewrite Hopt, Hint.
  cbn [mbind result_bind]. cbv zeta.
  destruct (priority_field ival) as (Hland & Hshift & Hrange).
  rewrite Hshift. change (Z.of_nat (length _priority_labels)) with 7.
  split.
  - intros H7. rewrite Hland in H7. rewrite Z.shiftl_mul_pow2 in H7 by lia.
    assert (ival / 2 ^ 13 mod 8 = 7) as -> by lia. reflexivity.
  - intros Hne.
    assert (Hlt : ival / 2 ^ 13 mod 8 < 7).
    { destruct (Z.eq_dec (ival / 2 ^ 13 mod 8) 7) as [H7|H7]; [|lia].
      destruct Hne. rewrite Hland, H7. reflexivity. }
    apply Z.ltb_lt in Hlt. rewrite Hlt. cbn [negb]. eauto.
Qed.

Lemma msg_flags_priority_witness :
  _MsgFlags_convert _msg_flags_converter default_options "E001"
  = Raise (AssertionError "invalid priority")
  ∧ ∃ out, _MsgFlags_convert _msg_flags_converter default_options "8001"
           = Ok out.
Proof.
  split.
  - apply (proj1 (msg_flags_priority default_options "E001" 0xE001
                    eq_refl eq_refl)).
    reflexivity.
  - apply (proj2 (msg_flags_priority default_options "8001" 0x8001
                    eq_refl eq_refl)).
    discriminate.
Defined.

(** ** Field converters: enumerations *)

Lemma dict_enumerate_lookup_from (values : list (option string)) (k : nat)
    (n : Z) :
  (list_to_map (imap (fun i v => (Z.of_nat (k + i), v)) values)
     : gmap Z (option string)) !! n
  = if Z.of_nat k <=? n then values !! (Z.to_nat n - k)%nat else None.
Proof.
  revert k. induction values as [|v values IH]; intros k.
  - cbn. rewrite lookup_empty. destruct (Z.of_nat k <=? n); reflexivity.
  - rewrite imap_cons, list_to_map_cons.
    assert (Himap : imap ((fun i v0 => (Z.of_nat (k + i), v0)) ∘ S) values
                    = imap (fun i v0 => (Z.of_nat (S k + i), v0)) values).
    { apply imap_ext. intros i x _. cbn. f_equal. lia. }
    rewrite Himap.
    destruct (Z.eq_dec (Z.of_nat (k + 0)) n) as [Heq|Hne].
    + rewrite Heq, lookup_insert_eq.
      destruct (Z.leb_spec (Z.of_nat k) n) as [_|?]; [|lia].
      replace (Z.to_nat n - k)%nat with 0%nat by lia. reflexivity.
    + rewrite lookup_insert_ne by exact Hne. rewrite IH.
      destruct (Z.leb_spec (Z.of_nat (S k)) n) as [Hle|Hgt].
      * destruct (Z.leb_spec (Z.of_nat k) n) as [_|?]; [|lia].
        replace (Z.to_nat n - k)%nat with (S (Z.to_nat n - S k)) by lia.
        reflexivity.
      * destruct (Z.leb_spec (Z.of_nat k) n) as [?|_]; [lia|reflexivity].
Qed.

Lemma dict_enumerate_lookup (values : list (option string)) (n : Z) :
  dict_enumerate values !! n
  = if 0 <=? n then values !! Z.to_nat n else None.
Proof.
  unfold dict_enumerate.
  change (imap (fun i v => (Z.of_nat i, v)) values)
    with (imap (fun i v => (Z.of_nat (0 + i), v)) values).
  rewrite (dict_enumerate_lookup_from values 0 n). cbn [Z.of_nat].
  rewrite Nat.sub_0_r. reflexivity.
Qed.

(** X24: unless option [no_symbolic] is set, an enumeration built from a
    list converts a value that parses to the name at that position of the
    list; a position outside the list gives the default, and a position
    whose name is [None] or a missing default gives the value itself; the
    empty value is not parsed and gives the default. For [_BoolInt] that is
    [false] for 0, [true] for 1 and the value itself for any other
    number. *)
Theorem enumeration_convert (values : list (option string))
    (dflt : option string) (base : Z) (opts : Options) (value : string) :
  no_symbolic opts = false →
  (value = EmptyString →
     _Enumeration_convert (_Enumeration_init values dflt base) opts value
     = Ok (default value dflt))
  ∧ (∀ n, value ≠ EmptyString → int_ value base = Ok n →
     _Enumeration_convert (_Enumeration_init values dflt base) opts value
     = Ok (match (if 0 <=? n then values !! Z.to_nat n else None) with
           | Some (Some name) => name
           | Some None => value
           | None => default value dflt
           end))
  ∧ (∀ n, value ≠ EmptyString → int_ value 16 = Ok n →
     _Enumeration_convert _bool_int_converter opts value
     = Ok (if n =? 0 then "false" else if n =? 1 then "true" else value)).
Proof.
  intros Hopt.
  assert (Hgen : ∀ values dflt base n,
    value ≠ EmptyString → int_ value base = Ok n →
    _Enumeration_convert (_Enumeration_init values dflt base) opts value
    = Ok (match (if 0 <=? n then values !! Z.to_nat n else None) with
          | Some (Some name) => name
          | Some None => value
          | None => default value dflt
          end)).
  { intros vs d b n Hne Hint. unfold _Enumeration_convert. rewrite Hopt.
    apply String.eqb_neq in Hne. rewrite Hne.
    cbn [_Enumeration_init _Enumeration_Int _map _default].
    unfold _to_int. cbn [_base]. rewrite Hint. cbn [mbind result_bind].
    rewrite dict_enumerate_lookup.
    destruct (if 0 <=? n then vs !! Z.to_nat n else None) as [[name|]|];
      cbn; [reflexivity..|].
    destruct d; reflexivity. }
  split; [|split].
  - intros ->. unfold _Enumeration_convert. rewrite Hopt. cbn.
    destruct dflt; reflexivity.
  - apply Hgen.
  - intros n Hne Hint. unfold _bool_int_converter.
    rewrite (Hgen _ _ _ n Hne Hint).
    destruct (Z.leb_spec 0 n) as [Hn|Hn].
    + destruct (Z.eqb_spec n 0) as [->|H0]; [reflexivity|].
      destruct (Z.eqb_spec n 1) as [->|H1]; [reflexivity|].
      replace (Z.to_nat n) with (S (S (Z.to_nat (n - 2)))) by lia.
      reflexivity.
    + destruct (Z.eqb_spec n 0) as [?|_]; [lia|].
      destruct (Z.eqb_spec n 1) as [?|_]; [lia|]. reflexivity.
Qed.

Lemma enumeration_convert_witness :
  _Enumeration_convert _bool_int_converter default_options "1" = Ok "true"
  ∧ _Enumeration_convert _bool_int_converter default_options "2" = Ok "2"
  ∧ _Enumeration_convert
      (_Enumeration_init [None; Some "nsMsgRetainAll"] (Some "other") 16)
      default_options "0" = Ok "0".
Proof.
  split; [|split].
  - apply (proj2 (proj2 (enumeration_convert [] None 16 default_options "1"
                           eq_refl)) 1); [discriminate|reflexivity].
  - apply (proj2 (proj2 (enumeration_convert [] None 16 default_options "2"
                           eq_refl)) 2); [discriminate|reflexivity].
  - apply (proj1 (proj2 (enumeration_convert [None; Some "nsMsgRetainAll"]
                           (Some "other") 16 default_options "0" eq_refl)) 0);
      [discriminate|reflexivity].
Defined.

(** ** Numerals *)

Lemma hex_digit_upper_ok (d : N) :
  (d < 16)%N →
  let c := hex_digit_upper d in
  is_digit 16 c = true
  ∧ digit_value c = Some (Z.of_N d)
  ∧ is_space c = false
  ∧ Ascii.eqb c "-" = false ∧ Ascii.eqb c "+" = false
  ∧ Nat.eqb (nat_of_ascii c) 120 = false
  ∧ Nat.eqb (nat_of_ascii c) 88 = false.
Proof.
  intros Hd. cbv zeta.
  assert (Hall : forallb hex_digit_ok (seq 0 16) = true)
    by (vm_compute; reflexivity).
  rewrite forallb_forall in Hall.
  assert (Hin : In (N.to_nat d) (seq 0 16)) by (apply in_seq; lia).
  apply Hall in Hin. unfold hex_digit_ok in Hin. rewrite N2Nat.id in Hin.
  cbv zeta in Hin.
  repeat (apply andb_true_iff in Hin as [Hin ?]).
  repeat match goal with H : negb _ = true |- _ => apply negb_true_iff in H end.
  repeat split; try assumption.
  destruct (digit_value (hex_digit_upper d)) as [z|]; [|discriminate].
  match goal with H : option_Z_eqb _ _ = true |- _ =>
    cbn [option_Z_eqb] in H; apply Z.eqb_eq in H end.
  f_equal. lia.
Qed.

Lemma int_digits_fmtX_aux (fuel : nat) (n : N) (rest : string) :
  (n < 16 ^ N.of_nat fuel)%N →
  int_digits 16 (fmtX_aux fuel n rest) 0 = int_digits 16 rest (Z.of_N n).
Proof.
  revert n rest. induction fuel as [|fuel IH]; intros n rest Hn.
  - cbn [fmtX_aux]. cbn in Hn. replace n with 0%N by lia. reflexivity.
  - cbn [fmtX_aux].
    assert (Hmod : (n mod 16 < 16)%N) by (apply N.mod_lt; lia).
    destruct (hex_digit_upper_ok _ Hmod) as (Hdig & Hval & _).
    pose proof (N.div_mod' n 16) as Hdm.
    assert (Hstep : ∀ a, int_digits 16
                           (String (hex_digit_upper (n mod 16)) rest) a
                         = int_digits 16 rest (16 * a + Z.of_N (n mod 16))).
    { intros a. cbn [int_digits]. rewrite Hdig, Hval. reflexivity. }
    destruct (N.eqb_spec (n / 16) 0) as [H0|Hne].
    + rewrite Hstep. f_equal. lia.
    + rewrite IH, Hstep; [f_equal; lia|].
      apply N.Div0.div_lt_upper_bound.
      rewrite Nat2N.inj_succ, N.pow_succ_r' in Hn. exact Hn.
Qed.

Lemma fmtX_aux_head (fuel : nat) (n : N) (rest : string) :
  ∃ d s, (d < 16)%N ∧ fmtX_aux (S fuel) n rest = String (hex_digit_upper d) s
         ∧ match s with
           | String c _ => (∃ d', (d' < 16)%N ∧ c = hex_digit_upper d')
                           ∨ s = rest
           | EmptyString => True
           end.
Proof.
  revert n rest. induction fuel as [|fuel IH]; intros n rest.
  - exists (n mod 16)%N, rest. split; [apply N.mod_lt; lia|].
    split; [cbn [fmtX_aux]; destruct (n / 16 =? 0)%N; reflexivity|].
    destruct rest; auto.
  - remember (S fuel) as f eqn:Hf. cbn [fmtX_aux].
    destruct (n / 16 =? 0)%N.
    + exists (n mod 16)%N, rest. split; [apply N.mod_lt; lia|].
      split; [reflexivity|]. destruct rest; auto.
    + subst f.
      destruct (IH (n / 16)%N (String (hex_digit_upper (n mod 16)) rest))
        as (d & s & Hd & -> & Hs).
      exists d, s. split; [exact Hd|]. split; [reflexivity|].
      destruct s as [|c s']; [exact I|]. destruct Hs as [Hs|Hs]; [auto|].
      left. injection Hs as -> _. exists (n mod 16)%N.
      split; [apply N.mod_lt; lia|reflexivity].
Qed.

Lemma fmtX_fuel (n : N) : (n < 16 ^ N.of_nat (S (N.to_nat (N.log2 n))))%N.
Proof.
  rewrite Nat2N.inj_succ, N2Nat.id.
  destruct (N.eq_dec n 0%N) as [->|Hn]; [reflexivity|].
  destruct (N.log2_spec n) as [_ Hlt]; [lia|].
  apply (N.lt_le_trans _ _ _ Hlt).
  apply N.pow_le_mono_l. lia.
Qed.

Lemma int_fmtX (n : N) : int_ (fmtX n) 16 = Ok (Z.of_N n).
Proof.
  unfold fmtX.
  pose proof (int_digits_fmtX_aux _ n EmptyString (fmtX_fuel n)) as Hdigits.
  destruct (fmtX_aux_head (N.to_nat (N.log2 n)) n EmptyString)
    as (d & s & Hd & Hs & Hsnd).
  rewrite Hs in Hdigits |- *.
  destruct (hex_digit_upper_ok d Hd) as (Hdig & _ & Hsp & Hm & Hp & _).
  unfold int_. cbn [orb Z.ltb Z.compare]. cbn [lstrip]. rewrite Hsp, Hm, Hp.
  assert (Hprefix : int_prefix 16 (String (hex_digit_upper d) s)
                    = String (hex_digit_upper d) s).
  { destruct s as [|c s']; [reflexivity|]. cbn [int_prefix].
    destruct Hsnd as [(d' & Hd' & ->)|Hnil]; [|discriminate].
    destruct (hex_digit_upper_ok d' Hd') as (_ & _ & _ & _ & _ & Hx & HX).
    rewrite Hx, HX. cbn [orb andb].
    rewrite !andb_false_r. reflexivity. }
  rewrite Hprefix. cbn [int_body]. rewrite Hdig, Hdigits. reflexivity.
Qed.

(** X25: the upper-case hexadecimal numeral of a number, as ['%X'] writes
    it, is read back by [int(_, 16)] as that number; so, unless option
    [no_base] is set, the hexadecimal converter turns it into the decimal
    numeral of the number. *)
Theorem int_convert_hex_numeral (opts : Options) (n : N) :
  int_ (fmtX n) 16 = Ok (Z.of_N n)
  ∧ (no_base opts = false →
     _Int_convert _hex_int_converter opts (fmtX n) = Ok (unicode (Z.of_N n))).
Proof.
  split; [apply int_fmtX|].
  intros Hopt. unfold _Int_convert, _to_int. rewrite Hopt.
  cbn [_base _hex_int_converter]. rewrite int_fmtX. reflexivity.
Qed.

Lemma int_convert_hex_numeral_witness :
  _Int_convert _hex_int_converter default_options "1F4" = Ok "500".
Proof.
  apply (proj2 (int_convert_hex_numeral default_options 500)). reflexivity.
Defined.

(** ** Field converters: the IMAP flags *)

Lemma named_flags_from_nil (values : list (option string)) (i ival : Z) :
  (∀ n name, values !! n = Some (Some name) →
             Z.testbit ival (i + Z.of_nat n) = false) →
  named_flags_from i values ival = [].
Proof.
  intros Hbits.
  destruct (named_flags_from i values ival) as [|name l] eqn:Hl; [reflexivity|].
  assert (Hin : name ∈ named_flags_from i values ival)
    by (rewrite Hl; apply list_elem_of_here).
  apply named_flags_from_elem in Hin as (n & Hn & _ & Hb).
  rewrite (Hbits n name Hn) in Hb. discriminate Hb.
Qed.

Lemma imap_named_bits (n : nat) (name : string) :
  _ImapFlags_flag_vals !! n = Some (Some name) →
  Z.testbit 0xEFFF (Z.of_nat n) = true.
Proof.
  do 16 (destruct n as [|n]; [cbn; intros H; try discriminate H; reflexivity|]).
  cbn. discriminate.
Qed.

(** X26: unless option [no_symbolic] is set, [_ImapFlags.convert] returns a
    text for every value that parses; when none of the named bits and none
    of the label bits is set it returns the empty text, not the
    [kNoImapMsgFlag] given to the converter as its text for no flag (which
    only [_Flags.convert] returns). *)
Theorem imap_flags_convert (opts : Options) (value : string) (ival : Z) :
  no_symbolic opts = false →
  _to_int (_Flags_Int _imap_flags_converter) value = Ok ival →
  (∃ out, _ImapFlags_convert _imap_flags_converter opts value = Ok out)
  ∧ (Z.land ival 0xEFFF = 0 →
     _ImapFlags_convert _imap_flags_converter opts value = Ok EmptyString
     ∧ _Flags_convert _imap_flags_converter opts value = Ok "kNoImapMsgFlag").
Proof.
  intros Hopt Hint. unfold _ImapFlags_convert, _Flags_convert.
  rewrite Hopt, Hint. cbn [mbind result_bind]. cbv zeta.
  split; [eauto|]. intros Hmask.
  assert (Hlabels : Z.land ival 0xE00 = 0).
  { change 0xE00 with (Z.land 0xEFFF 0xE00).
    rewrite Z.land_assoc, Hmask. reflexivity. }
  assert (Hnone : named_flags_from 0 (_values _imap_flags_converter) ival = []).
  { apply named_flags_from_nil. intros n name Hn.
    apply imap_named_bits in Hn.
    assert (Hb : Z.testbit (Z.land ival 0xEFFF) (Z.of_nat n) = false)
      by (rewrite Hmask; apply Z.bits_0).
    rewrite Z.land_spec, Hn, andb_true_r in Hb. exact Hb. }
  rewrite Hlabels, Z.sub_0_r, !get_flags_named, Hnone. split; reflexivity.
Qed.

Lemma imap_flags_convert_witness :
  _ImapFlags_convert _imap_flags_converter default_options "1000"
  = Ok EmptyString
  ∧ _Flags_convert _imap_flags_converter default_options "1000"
    = Ok "kNoImapMsgFlag".
Proof.
  apply (proj2 (imap_flags_convert default_options "1000" 0x1000
                  eq_refl eq_refl)).
  reflexivity.
Defined.

(** ** The exceptions of the resolver and of the builders *)

Lemma dicts_getitem_Raise (db : MorkDatabase) (ns alias : string) (e : exn) :
  dicts_getitem db ns alias = Raise e → ∃ k, e = KeyError k.
Proof.
  unfold dicts_getitem. destruct (dicts db !! ns) as [d|]; [|intros [= <-]; eauto].
  destruct (d !! alias); [discriminate|intros [= <-]; eauto].
Qed.

Lemma dissectId_Raise (db : MorkDatabase) :
  ∀ oid e, _dissectId db oid = Raise e → ∃ k, e = KeyError k.
Proof.
  apply (ObjectId_mutind
           (fun oid => ∀ e, _dissectId db oid = Raise e → ∃ k, e = KeyError k)
           (fun scope => ∀ i e, _dissectId db (mkObjectId i scope) = Raise e →
                                ∃ k, e = KeyError k)
           (fun ref => ∀ d e, _dictDeref db ref d = Raise e →
                              ∃ k, e = KeyError k)).
  - intros objectid scope IH. apply IH.
  - discriminate.
  - discriminate.
  - intros ref IH i e. cbn [_dissectId]. intros Hr.
    apply bind_Raise_inv in Hr as [Hr|(a & _ & [=])]. exact (IH _ _ Hr).
  - intros obj IH d e. cbn [_dictDeref]. intros Hr.
    apply bind_Raise_inv in Hr as [Hr|([oid ns] & _ & Hr)]; [exact (IH _ Hr)|].
    exact (dicts_getitem_Raise _ _ _ _ Hr).
Qed.

Lemma dictDeref_Raise (db : MorkDatabase) (ref : ObjectRef) (d : string)
    (e : exn) :
  _dictDeref db ref d = Raise e → ∃ k, e = KeyError k.
Proof.
  destruct ref as [obj]. cbn [_dictDeref]. intros Hr.
  apply bind_Raise_inv in Hr as [Hr|([oid ns] & _ & Hr)].
  - exact (dissectId_Raise db _ _ Hr).
  - exact (dicts_getitem_Raise _ _ _ _ Hr).
Qed.

Lemma inflateCell_Raise (db : MorkDatabase) (cell : Cell) (e : exn) :
  _inflateCell db cell = Raise e → ∃ k, e = KeyError k.
Proof.
  unfold _inflateCell. intros Hr.
  apply bind_Raise_inv in Hr as [Hr|(column & _ & Hr)].
  - destruct (Cell_column cell) as [c|c]; [discriminate|].
    exact (dictDeref_Raise _ _ _ _ Hr).
  - apply bind_Raise_inv in Hr as [Hr|(v & _ & [=])].
    destruct (Cell_value cell) as [v|v].
    + apply unescape_Raise_inv in Hr as (pre & x & post & _ & -> & _). eauto.
    + exact (dictDeref_Raise _ _ _ _ Hr).
Qed.

Lemma row_cells_Raise (db : MorkDatabase) (cs : list Cell)
    (self : gmap string string) (e : exn) :
  row_cells db cs self = Raise e → ∃ k, e = KeyError k.
Proof.
  revert self. induction cs as [|cell cs IH]; intros self; cbn [row_cells];
    [discriminate|].
  intros Hr. apply bind_Raise_inv in Hr as [Hr|([column value] & _ & Hr)].
  - exact (inflateCell_Raise _ _ _ Hr).
  - exact (IH _ Hr).
Qed.

Lemma MorkRow_fromAst_Raise (ast : Row) (d : option string)
    (db db' : MorkDatabase) (e : exn) :
  _MorkRow_fromAst ast d db = (Raise e, db') →
  (∃ k, e = KeyError k)
  ∨ (e = AssertionError "no namespace found for row" ∧ d = None).
Proof.
  rewrite MorkRow_fromAst_run.
  destruct (row_cells db (Row_cells ast) ∅) as [self|e'] eqn:Hc.
  - destruct (_dissectId db (Row_rowid ast)) as [[oid ns]|e'] eqn:Hid.
    + unfold row_key. rewrite Hid.
      destruct ns as [ns|]; [discriminate|].
      destruct d as [ns|]; [discriminate|]. intros [= <- _]. auto.
    + intros [= <- _]. left. exact (dissectId_Raise _ _ _ Hid).
  - intros [= <- _]. left. exact (row_cells_Raise _ _ _ _ Hc).
Qed.

(** X27: resolving an identifier, a reference or a cell fails with a
    [KeyError] and nothing else; a Row item fails with a [KeyError] or with
    the assertion that no namespace was found, and the assertion is out of
    the question when a default namespace is given. *)
Theorem resolution_errors (db : MorkDatabase) :
  (∀ oid e, _dissectId db oid = Raise e → ∃ k, e = KeyError k)
  ∧ (∀ ref d e, _dictDeref db ref d = Raise e → ∃ k, e = KeyError k)
  ∧ (∀ cell e, _inflateCell db cell = Raise e → ∃ k, e = KeyError k)
  ∧ (∀ ast d db' e, _MorkRow_fromAst ast d db = (Raise e, db') →
       (∃ k, e = KeyError k)
       ∨ (e = AssertionError "no namespace found for row" ∧ d = None)).
Proof.
  split; [apply dissectId_Raise|split; [|split]].
  - intros ref d e. apply dictDeref_Raise.
  - intros cell e. apply inflateCell_Raise.
  - intros ast d db' e. apply MorkRow_fromAst_Raise.
Qed.

Lemma resolution_errors_witness :
  ∃ k, KeyError "zz" = KeyError k.
Proof.
  apply (proj1 (resolution_errors MorkDatabase_init)
           (mkObjectId "1" (ScopeRef (ref_to "zz" ScopeNone)))).
  reflexivity.
Defined.

Lemma table_rows_Raise (ns : string) (items : list TableItem)
    (acc : list (gmap string string)) (db db' : MorkDatabase) (e : exn) :
  table_rows ns items acc db = (Raise e, db') → ∃ k, e = KeyError k.
Proof.
  revert acc db. induction items as [|item items IH]; intros acc db;
    cbn [table_rows]; [discriminate|].
  rewrite M_bind_run. destruct item as [x|r].
  - rewrite M_bind_run. unfold read at 1.
    destruct (_dissectId db x) as [[rowId rowNamespace]|e'] eqn:Hx.
    + unfold read at 1.
      destruct (_MorkStore_getitem (rows db) (default ns rowNamespace, rowId))
        as [newRow|e'] eqn:Hget.
      * apply IH.
      * intros [= <- _].
        destruct (MorkStore_getitem_fail (rows db)
                    (default ns rowNamespace, rowId)) as [k Hk].
        { intros v. rewrite Hget. discriminate. }
        rewrite Hget in Hk. injection Hk as ->. eauto.
    + intros [= <- _]. exact (dissectId_Raise _ _ _ Hx).
  - destruct (_MorkRow_fromAst r (Some ns) db) as [[newRow|e'] db1] eqn:Hr.
    + apply IH.
    + intros [= <- _].
      destruct (MorkRow_fromAst_Raise _ _ _ _ _ Hr) as [Hk|[_ [=]]]. exact Hk.
Qed.

(** X28: a Table item fails with a [KeyError] (an undefined alias or
    namespace, or a referenced row that is not in the Row Store) or with
    the assertion that the table itself has no namespace, and nothing else:
    an inline row never fails for lack of a namespace, since it takes the
    table's. *)
Theorem table_item_errors (ast : Table) (db db' : MorkDatabase) (e : exn) :
  _MorkTable_fromAst ast db = (Raise e, db') →
  (∃ k, e = KeyError k) ∨ e = AssertionError "no namespace found for table".
Proof.
  unfold _MorkTable_fromAst. rewrite M_bind_run. unfold read at 1.
  destruct (_dissectId db (Table_tableid ast)) as [[oid [ns|]]|e'] eqn:Hid.
  - rewrite M_bind_run.
    destruct (table_rows ns (Table_rows ast) [] db) as [[rs|e'] db1] eqn:Hrs;
      [discriminate|].
    intros [= <- _]. left. exact (table_rows_Raise _ _ _ _ _ _ Hrs).
  - intros [= <- _]. auto.
  - intros [= <- _]. left. exact (dissectId_Raise _ _ _ Hid).
Qed.

Lemma table_item_errors_witness :
  (∃ k, KeyError "ns" = KeyError k)
  ∨ KeyError "ns" = AssertionError "no namespace found for table".
Proof.
  apply (table_item_errors table_X MorkDatabase_init MorkDatabase_init).
  reflexivity.
Defined.
